(** * omniFlix block indexer: a shallow embedding of package [indexer]

    The development follows [indexer.go] function by function.  Go values
    decoded from JSON ([interface{}] trees), the two-valued returns
    [(T, error)] and run-time panics of unchecked type assertions are kept
    as the code has them.  Everything outside the process (the chain node,
    PostgreSQL, the wall clock) is an explicit environment. *)

From stdpp Require Import gmap strings list pretty.

#[local] Set Warnings "-register-all".

Local Open Scope Z_scope.

(** ** Machine integers *)

Definition minInt64 : Z := - 2 ^ 63.
Definition maxInt64 : Z := 2 ^ 63 - 1.

Definition inInt64 (z : Z) : Prop := minInt64 <= z <= maxInt64.

(** Two's complement wrap-around of an [int64] result. *)
Definition wrap64 (z : Z) : Z := (z + 2 ^ 63) mod 2 ^ 64 - 2 ^ 63.

(** [currentHeight--] on an [int64]. *)
Definition dec64 (z : Z) : Z := wrap64 (z - 1).

(** ** Errors

    The code builds every error with [fmt.Errorf]; with [%w] the cause
    stays reachable, without it only the text is kept.  Errors coming out
    of a library ([net/http], [encoding/json], [strconv], [database/sql])
    are opaque, except the sentinel [sql.ErrNoRows], which the accessor
    compares against. *)

Inductive Error : Type :=
| ErrNoRows
| External (what : string)
| Errorf (msg : string)
| Wrapf (msg : string) (cause : Error).

#[global] Instance Error_eq_dec : EqDecision Error.
Proof. solve_decision. Defined.


(** ** Decoded JSON

    [json.Decoder.Decode] into a [map[string]interface{}] produces trees
    of [nil], [bool], [float64], [string], [[]interface{}] and
    [map[string]interface{}].  A map is kept as the list of its entries;
    a number keeps its literal, the code never looks inside one. *)

Inductive Value : Type :=
| VNil
| VBool (b : bool)
| VFloat64 (literal : string)
| VString (s : string)
| VSlice (elems : list Value)
| VMap (entries : list (string * Value)).

Definition GoMap : Type := list (string * Value).

(** [v, ok := m[k]] *)
Fixpoint mapLookup (m : GoMap) (k : string) : option Value :=
  match m with
  | [] => None
  | (k', v) :: rest => if String.eqb k k' then Some v else mapLookup rest k
  end.

(** [m[k]]: a missing key reads as the nil interface. *)
Definition mapIndex (m : GoMap) (k : string) : Value :=
  default VNil (mapLookup m k).

(** [v.(map[string]interface{})] and [v.(string)] in their comma-ok form. *)
Definition asMap (v : Value) : option GoMap :=
  match v with VMap m => Some m | _ => None end.

Definition asString (v : Value) : option string :=
  match v with VString s => Some s | _ => None end.

(** [%T] of a decoded value. *)
Definition typeName (v : Value) : string :=
  match v with
  | VNil => "<nil>"
  | VBool _ => "bool"
  | VFloat64 _ => "float64"
  | VString _ => "string"
  | VSlice _ => "[]interface {}"
  | VMap _ => "map[string]interface {}"
  end.

(** ** HTTP

    [http.Get] either fails in transport or yields a response; a response
    of any status code is not an error for [http.Get].  The body is either
    text that is no JSON or one JSON value. *)

Inductive Body : Type :=
| NotJSON (why : string)
| JSON (v : Value).

Record Response : Type := mkResponse {
  StatusCode : Z;
  RespBody : Body;
}.

Inductive GetResult : Type :=
| GetFailed (why : string)
| GetOK (resp : Response).

Definition StatusOK : Z := 200.

(** [json.NewDecoder(body).Decode(&result)] with
    [var result map[string]interface{}]: an object fills the map, [null]
    leaves it nil (every index then reads nil), anything else is an
    error. *)
Definition Decode (b : Body) : GoMap + Error :=
  match b with
  | NotJSON why => inr (External why)
  | JSON (VMap m) => inl m
  | JSON VNil => inl []
  | JSON v =>
      inr (External ("json: cannot unmarshal into Go value of type map[string]interface {}: "
                       +:+ typeName v))
  end.

(** ** [strconv.ParseInt(s, 10, 64)] *)

Definition isDigit (c : Ascii.ascii) : bool :=
  let n := Z.of_nat (Ascii.nat_of_ascii c) in (48 <=? n) && (n <=? 57).

Fixpoint parseDigits (s : string) (acc : Z) : option Z :=
  match s with
  | EmptyString => Some acc
  | String c rest =>
      if isDigit c
      then parseDigits rest (10 * acc + (Z.of_nat (Ascii.nat_of_ascii c) - 48))
      else None
  end.

Definition errSyntax : Error := External "strconv.ParseInt: invalid syntax".
Definition errRange : Error := External "strconv.ParseInt: value out of range".

Definition plusSign : Ascii.ascii := Ascii.ascii_of_nat 43.
Definition minusSign : Ascii.ascii := Ascii.ascii_of_nat 45.

Definition ParseInt (s : string) : Z * option Error :=
  match s with
  | EmptyString => (0, Some errSyntax)
  | String c rest =>
      let neg := bool_decide (c = minusSign) in
      let digits := if bool_decide (c = plusSign) || neg then rest else s in
      match digits with
      | EmptyString => (0, Some errSyntax)
      | _ =>
          match parseDigits digits 0 with
          | None => (0, Some errSyntax)
          | Some un =>
              if neg
              then (if un <=? 2 ^ 63 then (- un, None) else (minInt64, Some errRange))
              else (if un <? 2 ^ 63 then (un, None) else (maxInt64, Some errRange))
          end
      end
  end.

(** ** Records and rows *)

(** Instants are counted from Go's zero [time.Time]. *)
Definition Time : Type := Z.
Definition zeroTime : Time := 0.

(** [sql.NullTime] *)
Record NullTime : Type := mkNullTime {
  NTime : Time;
  Valid : bool;
}.

(** [json.RawMessage]: [None] is the nil slice. *)
Definition RawMessage : Type := option string.

Record BlockDetails : Type := mkBlockDetails {
  Height : Z;
  BlockID : string;
  NumTransactions : Z;
  Proposer : string;
  CreatedAt : Time;
  UpdatedAt : Time;
  DeletedAt : NullTime;
  Details : RawMessage;
}.

(** [BlockDetails{}] *)
Definition zeroBlockDetails : BlockDetails :=
  mkBlockDetails 0 "" 0 "" zeroTime zeroTime (mkNullTime zeroTime false) None.

(** One row of table [blocks], without its key [block_height].  The
    columns [Scan] reads into non-pointer Go fields hold a value; the two
    columns read into [sql.NullTime] and [json.RawMessage] may be NULL. *)
Record Row : Type := mkRow {
  block_id : string;
  proposer_address : string;
  num_transactions : Z;
  details : option string;
  created_at : Time;
  updated_at : Time;
  deleted_at : option Time;
}.

#[global] Instance NullTime_eq_dec : EqDecision NullTime.
Proof. solve_decision. Defined.
#[global] Instance BlockDetails_eq_dec : EqDecision BlockDetails.
Proof. solve_decision. Defined.
#[global] Instance Row_eq_dec : EqDecision Row.
Proof. solve_decision. Defined.

(** What [Scan] leaves in the eight destination fields. *)
Definition scanRow (height : Z) (r : Row) : BlockDetails :=
  {| Height := height;
     BlockID := block_id r;
     NumTransactions := num_transactions r;
     Proposer := proposer_address r;
     CreatedAt := created_at r;
     UpdatedAt := updated_at r;
     DeletedAt := match deleted_at r with
                  | Some t => mkNullTime t true
                  | None => mkNullTime zeroTime false
                  end;
     Details := details r |}.

(** ** The world the process runs in *)

(** The lines the code writes with [log.Printf], one constructor per call
    site. *)
Inductive LogLine : Type :=
| LogLatestHeightError (err : Error)
| LogMaxRaised (latestHeight maxBlockHeight : Z)
| LogIndexError (height : Z) (err : Error)
| LogMarshalError (err : Error)
| LogStoreError (err : Error).

(** The goroutine started by [FetchAndStoreBlockDetails].  It captures
    [height] and [blockDetails]; after [json.Marshal] and [time.Now] it
    holds [detailsJSON] and [currentTime] until [ExecContext] runs. *)
Inductive TaskPhase : Type :=
| Spawned
| Stamped (detailsJSON : string) (currentTime : Time).

Record Task : Type := mkTask {
  t_height : Z;
  t_block : BlockDetails;
  t_phase : TaskPhase;
}.

Record World : Type := mkWorld {
  clock : Time;              (* what [time.Now] reads *)
  blocks : gmap Z Row;       (* table [blocks], keyed by [block_height] *)
  stmts : nat;               (* statements sent to the database so far *)
  reqs : list string;        (* URLs requested so far, oldest first *)
  fetches : list Z;          (* heights [FetchAndStoreBlockDetails] was called with *)
  tasks : list Task;         (* persistence goroutines not yet finished *)
  logs : list LogLine;       (* log output, oldest first *)
}.

(** What the outside answers: the reply to the n-th upstream request, the
    failure (if any) of the n-th database statement, and [json.Marshal]
    on a non-nil [json.RawMessage]. *)
Record Env : Type := mkEnv {
  upstream : nat -> string -> GetResult;
  db_fault : nat -> option string;
  marshalRaw : string -> string + Error;
}.

Definition setReqs (f : list string -> list string) (w : World) : World :=
  mkWorld (clock w) (blocks w) (stmts w) (f (reqs w)) (fetches w) (tasks w) (logs w).
Definition setStmts (f : nat -> nat) (w : World) : World :=
  mkWorld (clock w) (blocks w) (f (stmts w)) (reqs w) (fetches w) (tasks w) (logs w).
Definition setFetches (f : list Z -> list Z) (w : World) : World :=
  mkWorld (clock w) (blocks w) (stmts w) (reqs w) (f (fetches w)) (tasks w) (logs w).
Definition setTasks (f : list Task -> list Task) (w : World) : World :=
  mkWorld (clock w) (blocks w) (stmts w) (reqs w) (fetches w) (f (tasks w)) (logs w).
Definition setLogs (f : list LogLine -> list LogLine) (w : World) : World :=
  mkWorld (clock w) (blocks w) (stmts w) (reqs w) (fetches w) (tasks w) (f (logs w)).
Definition setBlocks (f : gmap Z Row -> gmap Z Row) (w : World) : World :=
  mkWorld (clock w) (f (blocks w)) (stmts w) (reqs w) (fetches w) (tasks w) (logs w).
Definition setClock (f : Time -> Time) (w : World) : World :=
  mkWorld (f (clock w)) (blocks w) (stmts w) (reqs w) (fetches w) (tasks w) (logs w).

(** ** Computations: world passing, with panics *)

Inductive Outcome (A : Type) : Type :=
| Ret (a : A)
| Panic (msg : string).
Arguments Ret {A} a.
Arguments Panic {A} msg.

Definition M (A : Type) : Type := World -> Outcome A * World.

#[global] Instance M_ret : MRet M := λ A a w, (Ret a, w).
#[global] Instance M_bind : MBind M := λ A B f m w,
  match m w with
  | (Ret a, w') => f a w'
  | (Panic msg, w') => (Panic msg, w')
  end.

Definition panic {A} (msg : string) : M A := λ w, (Panic msg, w).

(** A failed single-valued type assertion; the run-time error names the
    dynamic type, [nil] for the nil interface. *)
Definition conversionPanic {A} (v : Value) (want : string) : M A :=
  panic ("interface conversion: interface {} is "
           +:+ match v with VNil => "nil" | _ => typeName v end
           +:+ ", not " +:+ want).

(** [v.(map[string]interface{})] used as an operand: panics when [v] is
    no map. *)
Definition mustMap (v : Value) : M GoMap :=
  match v with
  | VMap m => mret m
  | _ => conversionPanic v "map[string]interface {}"
  end.

Definition logPrintf (l : LogLine) : M unit :=
  λ w, (Ret (), setLogs (λ ls, ls ++ [l]) w).

Section Indexer.

Variable env : Env.

(** [http.Get(url)] *)
Definition httpGet (url : string) : M GetResult :=
  λ w, (Ret (upstream env (length (reqs w)) url), setReqs (λ rs, rs ++ [url]) w).

(** *** [getBlock] *)

Definition blockURL (height : Z) : string :=
  "https://rpc.omniflix.network/block?height=" +:+ pretty height.

Definition getBlock (height : Z) : M (BlockDetails * option Error) :=
  got ← httpGet (blockURL height);
  match got with
  | GetFailed why =>
      mret (zeroBlockDetails, Some (Wrapf "error fetching block from RPC" (External why)))
  | GetOK resp =>
      match Decode (RespBody resp) with
      | inr err =>
          mret (zeroBlockDetails, Some (Wrapf "error decoding block from RPC" err))
      | inl result =>
          match asMap (mapIndex result "result") with
          | None =>
              mret (zeroBlockDetails,
                    Some (Errorf "invalid or missing 'result' field in /block API response"))
          | Some resultResult =>
              blockIDMap ← mustMap (mapIndex resultResult "block_id");
              match asString (mapIndex blockIDMap "hash") with
              | None =>
                  mret (zeroBlockDetails,
                        Some (Errorf "error extracting block_id from /block response"))
              | Some blockID =>
                  block ← mustMap (mapIndex resultResult "block");
                  header ← mustMap (mapIndex block "header");
                  match asString (mapIndex header "proposer_address") with
                  | None =>
                      mret (zeroBlockDetails,
                            Some (Errorf "error extracting proposer_address from /block response"))
                  | Some proposer =>
                      mret (mkBlockDetails 0 blockID 0 proposer zeroTime zeroTime
                              (mkNullTime zeroTime false) None, None)
                  end
              end
          end
      end
  end.

(** *** [getBlockResults] *)

Definition blockResultsURL (height : Z) : string :=
  "https://rpc.omniflix.network/block_results?height=" +:+ pretty height.

Definition getBlockResults (height : Z) : M (BlockDetails * option Error) :=
  got ← httpGet (blockResultsURL height);
  match got with
  | GetFailed why =>
      mret (zeroBlockDetails, Some (Wrapf "error fetching block results" (External why)))
  | GetOK resp =>
      match Decode (RespBody resp) with
      | inr err =>
          mret (zeroBlockDetails, Some (Wrapf "error decoding block results" err))
      | inl result =>
          match asMap (mapIndex result "result") with
          | None =>
              mret (zeroBlockDetails,
                    Some (Errorf "invalid or missing 'result' field in /block_results API response"))
          | Some resultResult =>
              '(blockData, err) ← getBlock height;
              match err with
              | Some err =>
                  mret (zeroBlockDetails, Some (Wrapf "error fetching block_id from /block" err))
              | None =>
                  let blockID := BlockID blockData in
                  let proposer := Proposer blockData in
                  match mapLookup resultResult "txs_results" with
                  | None =>
                      mret (zeroBlockDetails,
                            Some (Errorf "error extracting txs_results from block results"))
                  | Some txsResults =>
                      match txsResults with
                      | VSlice txs =>
                          mret (mkBlockDetails height blockID (Z.of_nat (length txs)) proposer
                                  zeroTime zeroTime (mkNullTime zeroTime false) None, None)
                      | VNil =>
                          mret (mkBlockDetails height blockID 0 proposer
                                  zeroTime zeroTime (mkNullTime zeroTime false) None, None)
                      | txs =>
                          mret (zeroBlockDetails,
                                Some (Errorf ("unexpected type for txs_results: " +:+ typeName txs)))
                      end
                  end
              end
          end
      end
  end.

(** *** [GetLatestBlockHeight] *)

Definition statusURL : string := "https://rpc.omniflix.network/status".

Definition GetLatestBlockHeight : M (Z * option Error) :=
  got ← httpGet statusURL;
  match got with
  | GetFailed why =>
      mret (0, Some (Wrapf "error fetching status" (External why)))
  | GetOK resp =>
      match Decode (RespBody resp) with
      | inr err => mret (0, Some (Wrapf "error decoding status" err))
      | inl result =>
          resultMap ← mustMap (mapIndex result "result");
          match asMap (mapIndex resultMap "sync_info") with
          | None => mret (0, Some (Errorf "sync_info not found in response"))
          | Some syncInfo =>
              match asString (mapIndex syncInfo "latest_block_height") with
              | None => mret (0, Some (Errorf "latest_block_height not found in response"))
              | Some latestBlockHeight =>
                  match ParseInt latestBlockHeight with
                  | (_, Some err) =>
                      mret (0, Some (Wrapf "error parsing latest block height" err))
                  | (height, None) => mret (height, None)
                  end
              end
          end
      end
  end.

(** *** [GetLatestBlockHeightFromREST] *)

Definition latestBlockURL : string :=
  "https://rest.omniflix.network/cosmos/base/tendermint/v1beta1/blocks/latest".

Definition GetLatestBlockHeightFromREST : M (Z * option Error) :=
  got ← httpGet latestBlockURL;
  match got with
  | GetFailed why =>
      mret (0, Some (Wrapf "error fetching latest block from REST API" (External why)))
  | GetOK resp =>
      if bool_decide (StatusCode resp ≠ StatusOK)
      then mret (0, Some (Errorf ("REST API request failed with status code: "
                                    +:+ pretty (StatusCode resp))))
      else
      match Decode (RespBody resp) with
      | inr err =>
          mret (0, Some (Wrapf "error decoding latest block from REST API" err))
      | inl result =>
          match asMap (mapIndex result "block") with
          | None =>
              mret (0, Some (Errorf "invalid REST API response: 'block' field not found"))
          | Some block =>
              match asMap (mapIndex block "header") with
              | None =>
                  mret (0, Some (Errorf "invalid REST API response: 'header' field not found"))
              | Some header =>
                  match asString (mapIndex header "height") with
                  | None =>
                      mret (0, Some (Errorf "invalid REST API response: 'height' field not found"))
                  | Some heightStr =>
                      match ParseInt heightStr with
                      | (_, Some err) =>
                          mret (0, Some (Wrapf "error parsing block height" err))
                      | (height, None) => mret (height, None)
                      end
                  end
              end
          end
      end
  end.

(** *** [FetchAndStoreBlockDetails]

    The [go func() { ... }()] statement only starts the persistence
    goroutine; its body runs later, see [TaskStep]. *)

Definition goStore (height : Z) (blockDetails : BlockDetails) : M unit :=
  λ w, (Ret (), setTasks (λ ts, ts ++ [mkTask height blockDetails Spawned]) w).

(** Instrumentation only: remember that the pipeline was entered. *)
Definition noteFetch (height : Z) : M unit :=
  λ w, (Ret (), setFetches (λ hs, hs ++ [height]) w).

Definition FetchAndStoreBlockDetails (height : Z) : M (BlockDetails * option Error) :=
  _ ← noteFetch height;
  '(blockDetails, err) ← getBlockResults height;
  match err with
  | Some err =>
      mret (zeroBlockDetails, Some (Wrapf "error getting block details" err))
  | None =>
      _ ← goStore height blockDetails;
      mret (blockDetails, None)
  end.

(** *** [GetBlockDetails] *)

(** [idx.db.QueryRow("SELECT ... WHERE block_height = $1", height).Scan(...)] *)
Definition queryRowScan (height : Z) : M (BlockDetails * option Error) :=
  λ w,
    let w' := setStmts S w in
    match db_fault env (stmts w) with
    | Some why => (Ret (zeroBlockDetails, Some (External why)), w')
    | None =>
        match blocks w !! height with
        | Some r => (Ret (scanRow height r, None), w')
        | None => (Ret (zeroBlockDetails, Some ErrNoRows), w')
        end
    end.

Definition GetBlockDetails (height : Z) : M (option BlockDetails * option Error) :=
  '(blockDetails, err) ← queryRowScan height;
  match err with
  | Some err =>
      if bool_decide (err = ErrNoRows)
      then
        '(blockDetails, err) ← FetchAndStoreBlockDetails height;
        match err with
        | Some err =>
            mret (None, Some (Wrapf "error fetching and storing block details" err))
        | None => mret (Some blockDetails, None)
        end
      else mret (None, Some (Wrapf "error fetching block details from database" err))
  | None => mret (Some blockDetails, None)
  end.

End Indexer.

(** ** The persistence goroutine *)

(** The statement of [FetchAndStoreBlockDetails]:
    [INSERT INTO blocks (...) VALUES ($1, ..., $7, NULL)
     ON CONFLICT (block_height) DO UPDATE SET block_id, proposer_address,
     num_transactions, details, updated_at = EXCLUDED. ...].
    [created_at] and [deleted_at] are not in the SET list. *)
Definition upsert (height : Z) (blockID proposer : string) (numTransactions : Z)
    (detailsJSON : string) (createdAt updatedAt : Time) (tbl : gmap Z Row) : gmap Z Row :=
  match tbl !! height with
  | None =>
      <[height := mkRow blockID proposer numTransactions (Some detailsJSON)
                    createdAt updatedAt None]> tbl
  | Some old =>
      <[height := mkRow blockID proposer numTransactions (Some detailsJSON)
                    (created_at old) updatedAt (deleted_at old)]> tbl
  end.

Section Process.

Variable env : Env.

(** [json.Marshal(blockDetails.Details)]: a nil [RawMessage] marshals to
    [null]. *)
Definition marshalDetails (d : RawMessage) : string + Error :=
  match d with
  | None => inl "null"
  | Some raw => marshalRaw env raw
  end.

(** One scheduling slice of a persistence goroutine: first up to and
    including [time.Now()], then [ExecContext].  The result is the
    goroutine afterwards, [None] once it has returned. *)
Definition runTask (t : Task) (w : World) : option Task * World :=
  match t_phase t with
  | Spawned =>
      match marshalDetails (Details (t_block t)) with
      | inr err => (None, setLogs (λ ls, ls ++ [LogMarshalError err]) w)
      | inl detailsJSON =>
          (Some (mkTask (t_height t) (t_block t) (Stamped detailsJSON (clock w))), w)
      end
  | Stamped detailsJSON currentTime =>
      let w' := setStmts S w in
      match db_fault env (stmts w) with
      | Some why => (None, setLogs (λ ls, ls ++ [LogStoreError (External why)]) w')
      | None =>
          (None,
           setBlocks (upsert (t_height t) (BlockID (t_block t)) (Proposer (t_block t))
                        (NumTransactions (t_block t)) detailsJSON currentTime currentTime) w')
      end
  end.

Definition taskStep (i : nat) (w : World) : option World :=
  t ← tasks w !! i;
  let '(t', w') := runTask t w in
  Some (setTasks (λ ts, match t' with
                        | Some t' => <[i := t']> ts
                        | None => delete i ts
                        end) w').

(** ** One pass of [StartIndexing] as a transition system *)

(** Where a unit [go func(height int64) { ... }(currentHeight)] stands. *)
Inductive UnitPhase : Type :=
| Fetching      (* started; [FetchAndStoreBlockDetails] has not returned *)
| Finished      (* body done, deferred calls pending *)
| Released      (* [<-semaphore] done, [wg.Done()] pending *)
| Exited.

#[global] Instance UnitPhase_eq_dec : EqDecision UnitPhase.
Proof. solve_decision. Defined.

Record FetchUnit : Type := mkUnit {
  u_height : Z;
  u_phase : UnitPhase;
}.

(** Where the calling goroutine stands in the loop. *)
Inductive Pc : Type :=
| AtLoop        (* about to test [currentHeight >= minBlockHeight] *)
| AtAcquire     (* [wg.Add(1)] done, about to send on [semaphore] *)
| AtGo          (* slot held, about to start the unit and decrement *)
| AtWait        (* loop left, in [wg.Wait()] *)
| Returned.

#[global] Instance Pc_eq_dec : EqDecision Pc.
Proof. solve_decision. Defined.

Record Scan : Type := mkScan {
  minBlockHeight : Z;
  maxBlockHeight : Z;        (* after the merge with the resolved tip *)
  currentHeight : Z;
  pc : Pc;
  semaphore : nat;           (* elements sitting in the channel buffer *)
  wg : Z;                    (* the [sync.WaitGroup] counter *)
  units : list FetchUnit;    (* units started so far, in starting order *)
}.

(** [make(chan struct{}, 100)] *)
Definition semaphoreCap : nat := 100.

(** Lines 71 to 84: resolve the tip, log a failure, raise the ceiling. *)
Definition startIndexing (minBlockHeight maxBlockHeight : Z) : M Scan :=
  '(latestHeight, err) ← GetLatestBlockHeightFromREST env;
  _ ← match err with
      | Some err => logPrintf (LogLatestHeightError err)
      | None => mret ()
      end;
  maxBlockHeight ←
    (if bool_decide (latestHeight > maxBlockHeight)
     then _ ← logPrintf (LogMaxRaised latestHeight maxBlockHeight); mret latestHeight
     else mret maxBlockHeight);
  mret (mkScan minBlockHeight maxBlockHeight maxBlockHeight AtLoop 0 0 []).

(** A step of the calling goroutine; [None] when it is blocked (full
    channel, non-zero wait group) or has returned. *)
Definition mainStep (s : Scan) : option Scan :=
  match pc s with
  | AtLoop =>
      if bool_decide (currentHeight s >= minBlockHeight s)
      then Some (mkScan (minBlockHeight s) (maxBlockHeight s) (currentHeight s)
                   AtAcquire (semaphore s) (wg s + 1) (units s))
      else Some (mkScan (minBlockHeight s) (maxBlockHeight s) (currentHeight s)
                   AtWait (semaphore s) (wg s) (units s))
  | AtAcquire =>
      if bool_decide (semaphore s < semaphoreCap)%nat
      then Some (mkScan (minBlockHeight s) (maxBlockHeight s) (currentHeight s)
                   AtGo (S (semaphore s)) (wg s) (units s))
      else None
  | AtGo =>
      Some (mkScan (minBlockHeight s) (maxBlockHeight s) (dec64 (currentHeight s))
              AtLoop (semaphore s) (wg s)
              (units s ++ [mkUnit (currentHeight s) Fetching]))
  | AtWait =>
      if bool_decide (wg s = 0)
      then Some (mkScan (minBlockHeight s) (maxBlockHeight s) (currentHeight s)
                   Returned (semaphore s) (wg s) (units s))
      else None
  | Returned => None
  end.

Inductive Proc : Type :=
| Alive (s : Scan) (w : World)
| Crashed (msg : string) (w : World).

Definition setUnit (i : nat) (ph : UnitPhase) (s : Scan) : list FetchUnit :=
  alter (λ u, mkUnit (u_height u) ph) i (units s).

(** A step of the i-th unit.  An error of the pipeline is logged; a panic
    in the unit's goroutine is not recovered and ends the process. *)
Definition unitStep (i : nat) (s : Scan) (w : World) : option Proc :=
  u ← units s !! i;
  match u_phase u with
  | Fetching =>
      match FetchAndStoreBlockDetails env (u_height u) w with
      | (Ret (_, err), w') =>
          let w'' := match err with
                     | Some err => setLogs (λ ls, ls ++ [LogIndexError (u_height u) err]) w'
                     | None => w'
                     end in
          Some (Alive (mkScan (minBlockHeight s) (maxBlockHeight s) (currentHeight s)
                         (pc s) (semaphore s) (wg s) (setUnit i Finished s)) w'')
      | (Panic msg, w') => Some (Crashed msg w')
      end
  | Finished =>
      match semaphore s with
      | O => None
      | S n =>
          Some (Alive (mkScan (minBlockHeight s) (maxBlockHeight s) (currentHeight s)
                         (pc s) n (wg s) (setUnit i Released s)) w)
      end
  | Released =>
      Some (Alive (mkScan (minBlockHeight s) (maxBlockHeight s) (currentHeight s)
                     (pc s) (semaphore s) (wg s - 1) (setUnit i Exited s)) w)
  | Exited => None
  end.

(** What can happen next in the process: the clock advances, a
    persistence goroutine runs a slice, the scanning goroutine or one of
    its units moves, or the API serves a request (a panic there is
    recovered by the HTTP framework, the process goes on). *)
Inductive Label : Type :=
| LTick (d : nat)
| LTask (i : nat)
| LMain
| LUnit (i : nat)
| LRequest (height : Z).

Definition step (l : Label) (p : Proc) : option Proc :=
  match p with
  | Crashed _ _ => None
  | Alive s w =>
      match l with
      | LTick d => Some (Alive s (setClock (λ t, t + Z.of_nat d) w))
      | LTask i => w' ← taskStep i w; Some (Alive s w')
      | LMain => s' ← mainStep s; Some (Alive s' w)
      | LUnit i => unitStep i s w
      | LRequest height => Some (Alive s (GetBlockDetails env height w).2)
      end
  end.

Fixpoint run (ls : list Label) (p : Proc) : option Proc :=
  match ls with
  | [] => Some p
  | l :: ls => p' ← step l p; run ls p'
  end.

Definition reaches (p p' : Proc) : Prop := ∃ ls, run ls p = Some p'.

Definition worldOf (p : Proc) : World :=
  match p with Alive _ w | Crashed _ w => w end.

(** Units that hold a slot of the channel: started and not yet past
    their deferred [<-semaphore]. *)
Definition holdsSlot (u : FetchUnit) : bool :=
  match u_phase u with
  | Fetching | Finished => true
  | Released | Exited => false
  end.

Fixpoint countActive (us : list FetchUnit) : nat :=
  match us with
  | [] => O
  | u :: us => ((if holdsSlot u then 1 else 0) + countActive us)%nat
  end.

Definition activeUnits (s : Scan) : nat := countActive (units s).

(** Units whose [wg.Done()] is still to come. *)
Fixpoint countOpen (us : list FetchUnit) : nat :=
  match us with
  | [] => O
  | u :: us => ((if bool_decide (u_phase u = Exited) then 0 else 1) + countOpen us)%nat
  end.

(** [main]: the ceiling handed to every pass (main.go, lines 39 to 51). *)
Definition mainCeiling (maxBlockHeight : Z) : M Z :=
  '(latestHeight, err) ← GetLatestBlockHeightFromREST env;
  latestHeight ← match err with
                 | Some err => _ ← logPrintf (LogLatestHeightError err); mret maxBlockHeight
                 | None => mret latestHeight
                 end;
  mret (if bool_decide (latestHeight > maxBlockHeight) then latestHeight else maxBlockHeight).

End Process.

(** * Vocabulary of the statements *)

(** The ["result"] object of a reply, when the call got that far. *)
Definition resultOf (g : GetResult) : option GoMap :=
  match g with
  | GetFailed _ => None
  | GetOK resp =>
      match Decode (RespBody resp) with
      | inr _ => None
      | inl result => asMap (mapIndex result "result")
      end
  end.

(** The count [getBlockResults] derives from ["txs_results"]. *)
Definition txsCount (txsResults : option Value) : option Z :=
  match txsResults with
  | Some (VSlice txs) => Some (Z.of_nat (length txs))
  | Some VNil => Some 0
  | _ => None
  end.

(** The height string of a latest-block reply: [block.header.height]. *)
Definition restHeightField (result : GoMap) : option string :=
  block ← asMap (mapIndex result "block");
  header ← asMap (mapIndex block "header");
  asString (mapIndex header "height").

Section Vocabulary.

Variable env : Env.

(** The world once the pipeline has issued its first request. *)
Definition afterResultsRequest (height : Z) (w : World) : World :=
  setReqs (λ rs, rs ++ [blockResultsURL height]) (setFetches (λ hs, hs ++ [height]) w).

Definition resultsReply (height : Z) (w : World) : GetResult :=
  upstream env (length (reqs w)) (blockResultsURL height).

(** The ways the composition stage can fail: the block-results reply has
    no usable ["result"], the block-identity call reports an error, or
    ["txs_results"] is missing or of a foreign type. *)
Inductive UpstreamFails (height : Z) (w : World) : Prop :=
| results_unusable :
    resultOf (resultsReply height w) = None →
    UpstreamFails height w
| block_call_failed resultResult bd err w' :
    resultOf (resultsReply height w) = Some resultResult →
    getBlock env height (afterResultsRequest height w) = (Ret (bd, Some err), w') →
    UpstreamFails height w
| txs_results_unusable resultResult bd w' :
    resultOf (resultsReply height w) = Some resultResult →
    getBlock env height (afterResultsRequest height w) = (Ret (bd, None), w') →
    txsCount (mapLookup resultResult "txs_results") = None →
    UpstreamFails height w.

End Vocabulary.

(** [hi, hi-1, ...], [n] heights in all. *)
Fixpoint descending (hi : Z) (n : nat) : list Z :=
  match n with
  | O => []
  | S n => hi :: descending (hi - 1) n
  end.

(** The heights from [hi] down to [lo], both included. *)
Definition descRange (hi lo : Z) : list Z := descending hi (Z.to_nat (hi - lo + 1)).

Definition inLoopBody (p : Pc) : bool :=
  match p with AtAcquire | AtGo => true | _ => false end.

Definition pastLoop (p : Pc) : bool :=
  match p with AtWait | Returned => true | _ => false end.

(** The channel holds one element per unit that has not yet run its
    deferred receive, plus one while the caller is between its send and
    its [go] statement; it never holds more than its capacity. *)
Definition GateInv (s : Scan) : Prop :=
  semaphore s = (countActive (units s) + (if bool_decide (pc s = AtGo) then 1 else 0))%nat
  ∧ (semaphore s ≤ semaphoreCap)%nat.

(** Progress of the loop over the window [lo .. hi]. *)
Record SweepInv (lo hi : Z) (s : Scan) : Prop := mkSweepInv {
  sweep_min : minBlockHeight s = lo;
  sweep_max : maxBlockHeight s = hi;
  sweep_heights : u_height <$> units s = descending hi (length (units s));
  sweep_current : currentHeight s = hi - Z.of_nat (length (units s));
  sweep_floor : lo - 1 ≤ currentHeight s;
  sweep_body : inLoopBody (pc s) = true → lo ≤ currentHeight s;
  sweep_done : pastLoop (pc s) = true → currentHeight s = lo - 1;
  sweep_wg : wg s = Z.of_nat (countOpen (units s))
                    + (if inLoopBody (pc s) then 1 else 0);
  sweep_returned : pc s = Returned → countOpen (units s) = O;
}.

Definition isReturned (p : Proc) : Prop :=
  match p with Alive s _ => pc s = Returned | Crashed _ _ => False end.

Definition isCrashed (p : Proc) : Prop :=
  match p with Alive _ _ => False | Crashed _ _ => True end.

(** * Scenarios

    Concrete replies, environments and worlds on which the statements
    below are exercised. *)

Module Scenario.

(** A block-results reply with two transaction results. *)
Definition blockResultsBody : Body :=
  JSON (VMap [("jsonrpc", VString "2.0");
              ("result", VMap [("height", VString "10");
                               ("txs_results", VSlice [VMap [("code", VFloat64 "0")];
                                                       VMap [("code", VFloat64 "0")]])])]).

(** A block reply with hash ABC and proposer P1. *)
Definition blockBody : Body :=
  JSON (VMap [("result",
               VMap [("block_id", VMap [("hash", VString "ABC")]);
                     ("block", VMap [("header", VMap [("proposer_address", VString "P1")])])])]).

Definition latestBlockBody (height : string) : Body :=
  JSON (VMap [("block", VMap [("header", VMap [("height", VString height)])])]).

Definition statusBody (height : string) : Body :=
  JSON (VMap [("result", VMap [("sync_info", VMap [("latest_block_height", VString height)])])]).

(** A node that answers every height alike and reports [tip] as its
    latest height. *)
Definition node (tip : string) (url : string) : GetResult :=
  if String.prefix "https://rpc.omniflix.network/block_results?height=" url
  then GetOK (mkResponse 200 blockResultsBody)
  else if String.prefix "https://rpc.omniflix.network/block?height=" url
  then GetOK (mkResponse 200 blockBody)
  else if String.eqb url latestBlockURL
  then GetOK (mkResponse 200 (latestBlockBody tip))
  else if String.eqb url statusURL
  then GetOK (mkResponse 200 (statusBody tip))
  else GetFailed "no such host".

Definition noFault (n : nat) : option string := None.

Definition rawAsIs (raw : string) : string + Error := inl raw.

Definition chain (tip : string) : Env := mkEnv (λ _, node tip) noFault rawAsIs.

(** The same node, answering HTTP 500 without a JSON body to the
    block-results request for height 15. *)
Definition chainB : Env :=
  mkEnv (λ _ url, if String.eqb url (blockResultsURL 15)
                   then GetOK (mkResponse 500 (NotJSON "Internal Server Error"))
                   else node "12" url)
        noFault rawAsIs.

(** A node whose block reply has a ["result"] with an empty block
    identifier and a null block. *)
Definition blockMissingBody : Body :=
  JSON (VMap [("result", VMap [("block_id", VMap [("hash", VString "")]);
                               ("block", VNil)])]).

Definition chainBlockMissing : Env :=
  mkEnv (λ _ url, if String.eqb url (blockURL 15)
                   then GetOK (mkResponse 200 blockMissingBody)
                   else node "12" url)
        noFault rawAsIs.

(** A database that fails its first statement. *)
Definition chainDown : Env :=
  mkEnv (λ _, node "12") (λ n, if bool_decide (n = 0%nat) then Some "connection refused" else None)
        rawAsIs.

(** A status endpoint that answers HTTP 500 with a well-formed body, and
    one that answers with a JSON-RPC error object, which has no
    ["result"]. *)
Definition statusUnavailable : Env :=
  mkEnv (λ _ _, GetOK (mkResponse 500 (statusBody "5"))) noFault rawAsIs.

Definition rpcErrorBody : Body :=
  JSON (VMap [("jsonrpc", VString "2.0");
              ("id", VFloat64 "-1");
              ("error", VMap [("code", VFloat64 "-32603");
                              ("message", VString "Internal error")])]).

Definition statusRpcError : Env :=
  mkEnv (λ _ _, GetOK (mkResponse 200 rpcErrorBody)) noFault rawAsIs.

Definition emptyWorld : World := mkWorld 1000 ∅ 0 [] [] [] [].

Definition storedRow : Row := mkRow "ABC" "P1" 2 (Some "null") 400 700 None.

Definition worldWithRow : World :=
  mkWorld 1000 {[ 15 := storedRow ]} 0 [] [] [] [].

(** The node of [chain], answering every request with HTTP 503. *)
Definition chain503 (tip : string) : Env :=
  mkEnv (λ n url, match node tip url with
                  | GetOK resp => GetOK (mkResponse 503 (RespBody resp))
                  | GetFailed why => GetFailed why
                  end)
        noFault rawAsIs.

(** A node that cannot be reached. *)
Definition unreachable : Env := mkEnv (λ _ _, GetFailed "no such host") noFault rawAsIs.

(** No pass in progress. *)
Definition idle : Scan := mkScan 0 0 0 Returned 0 0 [].

(** Two requests for the absent height 11 start two persistence
    goroutines.  In [inOrder] the first goroutine has inserted the row
    and the second has read the clock afterwards; in [outOfOrder] the
    first has read the clock, the second has read it later and has
    already inserted the row. *)
Definition inOrder : list Label :=
  [LRequest 11; LRequest 11; LTask 0; LTask 0; LTick 1; LTask 0].

Definition outOfOrder : list Label :=
  [LRequest 11; LRequest 11; LTask 0; LTick 1; LTask 1; LTask 1].

(** A node that reports the least [int64] as its latest height. *)
Definition leastTip : string := "-9223372036854775808".

(** Start a unit, run it to its end, start the next one. *)
Definition twoUnits : list Label :=
  [LMain; LMain; LMain; LUnit 0; LUnit 0; LUnit 0; LMain; LMain; LMain].

(** Three units, each run to its end before the next is started, then
    the wait. *)
Definition threeUnits : list Label :=
  twoUnits ++ [LUnit 1; LUnit 1; LUnit 1; LMain; LMain; LMain;
               LUnit 2; LUnit 2; LUnit 2; LMain; LMain].

(** The caller alone takes [n] steps while no unit moves. *)
Definition callerOnly (n : nat) : list Label := replicate n LMain.

End Scenario.

(** * The API handler and further vocabulary *)

(** [err.Error()]: every wrapping in the code has the form
    [fmt.Errorf("msg: %w", err)]. *)
Fixpoint errorText (e : Error) : string :=
  match e with
  | ErrNoRows => "sql: no rows in result set"
  | External what => what
  | Errorf msg => msg
  | Wrapf msg cause => msg +:+ ": " +:+ errorText cause
  end.

(** What [c.JSON(status, obj)] is given: [gin.H{"error": msg}] or the
    [*BlockDetails] ([None] is the nil pointer, rendered as [null]). *)
Inductive JSONReply : Type :=
| ErrorReply (msg : string)
| BlockReply (blockDetails : option BlockDetails).

Definition StatusBadRequest : Z := 400.
Definition StatusInternalServerError : Z := 500.

Section API.

Variable env : Env.

(** [getBlockDetailsHandler], given [c.Param("height")]. *)
Definition getBlockDetailsHandler (heightStr : string) : M (Z * JSONReply) :=
  match ParseInt heightStr with
  | (_, Some _) => mret (StatusBadRequest, ErrorReply "Invalid block height")
  | (height, None) =>
      '(blockDetails, err) ← GetBlockDetails env height;
      match err with
      | Some err => mret (StatusInternalServerError, ErrorReply (errorText err))
      | None => mret (StatusOK, BlockReply blockDetails)
      end
  end.

End API.

(** Hash and proposer of a block reply:
    [result.block_id.hash] and [result.block.header.proposer_address]. *)
Definition blockIdentity (result : GoMap) : option (string * string) :=
  resultResult ← asMap (mapIndex result "result");
  blockIDMap ← asMap (mapIndex resultResult "block_id");
  blockID ← asString (mapIndex blockIDMap "hash");
  block ← asMap (mapIndex resultResult "block");
  header ← asMap (mapIndex block "header");
  proposer ← asString (mapIndex header "proposer_address");
  Some (blockID, proposer).

(** What a helper that does not read the status code sees of a reply. *)
Definition replyContent (g : GetResult) : string + Body :=
  match g with
  | GetFailed why => inl why
  | GetOK resp => inr (RespBody resp)
  end.

(** Two environments whose replies differ in status codes at most. *)
Definition sameContent (env1 env2 : Env) : Prop :=
  ∀ n url, replyContent (upstream env1 n url) = replyContent (upstream env2 n url).

(** The wait group counts the units that have not called [Done], plus
    one while the caller is between [wg.Add(1)] and its [go] statement;
    the caller gets past [wg.Wait()] only at zero. *)
Definition WaitInv (s : Scan) : Prop :=
  wg s = Z.of_nat (countOpen (units s)) + (if inLoopBody (pc s) then 1 else 0)
  ∧ (pc s = Returned → countOpen (units s) = O).

(** The heights whose unit has called the pipeline, in the order of the
    units. *)
Fixpoint fetchedHeights (us : list FetchUnit) : list Z :=
  match us with
  | [] => []
  | u :: us =>
      match u_phase u with
      | Fetching => fetchedHeights us
      | _ => u_height u :: fetchedHeights us
      end
  end.

Definition isRequest (l : Label) : bool :=
  match l with LRequest _ => true | _ => false end.

(** Every pending persistence goroutine holds a record without details
    under the height of that record. *)
Definition PlainTasks (w : World) : Prop :=
  Forall (λ t, Details (t_block t) = None ∧ Height (t_block t) = t_height t) (tasks w).

(** No row and no pending goroutine carries an instant later than the
    clock. *)
Definition NotInFuture (w : World) : Prop :=
  (∀ height r, blocks w !! height = Some r →
     created_at r ≤ clock w ∧ updated_at r ≤ clock w)
  ∧ Forall (λ t, match t_phase t with
                 | Spawned => True
                 | Stamped _ currentTime => currentTime ≤ clock w
                 end) (tasks w).

(** * Properties *)

(** Unfolding of the computation monad. *)
Ltac munfold :=
  unfold mbind, M_bind, mret, M_ret, panic, logPrintf, httpGet, goStore, noteFetch in *.

#[local] Arguments txsCount : simpl never.

(** Unfold the [int64] bounds down to numerals. *)
Ltac int64_bounds :=
  unfold inInt64, dec64, wrap64, minInt64, maxInt64 in *;
  change (2 ^ 64) with 18446744073709551616 in *;
  change (2 ^ 63) with 9223372036854775808 in *.

(** A successful [ParseInt] yields an [int64]. *)
Lemma ParseInt_range str z : ParseInt str = (z, None) → inInt64 z.
Proof.
  unfold ParseInt. destruct str as [|c rest]; [done|].
  destruct (if _ || _ then rest else String c rest); [done|].
  destruct (parseDigits _ 0) as [un|] eqn:Hdigits; [|done].
  assert (0 ≤ un) as Hnonneg.
  { assert (∀ digits acc, 0 ≤ acc → parseDigits digits acc = Some un → 0 ≤ un) as Hgo.
    { induction digits as [|d digits IH]; simpl; intros acc Hacc.
      - intros [= <-]. done.
      - unfold isDigit. destruct (_ && _) eqn:Hd; [|done].
        apply andb_prop in Hd as [Hlo _]. apply Z.leb_le in Hlo.
        apply IH. lia. }
    by eapply Hgo. }
  destruct (bool_decide _).
  - destruct (un <=? 2 ^ 63) eqn:Hle; [|done]. apply Z.leb_le in Hle.
    intros [= <-]. int64_bounds. lia.
  - destruct (un <? 2 ^ 63) eqn:Hlt; [|done]. apply Z.ltb_lt in Hlt.
    intros [= <-]. int64_bounds. lia.
Qed.



Section Facts.

Variable env : Env.

(** [getBlock] touches nothing but the request log. *)
Lemma getBlock_frame height w out w' :
  getBlock env height w = (out, w') →
  w' = setReqs (λ rs, rs ++ [blockURL height]) w.
Proof.
  unfold getBlock. munfold. simpl.
  destruct (upstream env _ _) as [why|resp]; [by intros [= _ <-]|].
  destruct (Decode _) as [result|err]; [|by intros [= _ <-]].
  destruct (asMap _) as [resultResult|]; [|by intros [= _ <-]].
  unfold mustMap, conversionPanic. munfold.
  destruct (mapIndex resultResult "block_id") as [| | | | |blockIDMap];
    try by intros [= _ <-].
  destruct (asString _); [|by intros [= _ <-]].
  destruct (mapIndex resultResult "block") as [| | | | |block];
    try by intros [= _ <-].
  destruct (mapIndex block "header") as [| | | | |header];
    try by intros [= _ <-].
  destruct (asString _); by intros [= _ <-].
Qed.

(** A successful [getBlock] leaves the height and the count at zero. *)
Lemma getBlock_ok_shape height w bd w' :
  getBlock env height w = (Ret (bd, None), w') →
  bd = mkBlockDetails 0 (BlockID bd) 0 (Proposer bd) zeroTime zeroTime
         (mkNullTime zeroTime false) None.
Proof.
  unfold getBlock. munfold. simpl.
  destruct (upstream env _ _) as [why|resp]; [by intros [= <- _]|].
  destruct (Decode _) as [result|err]; [|by intros [= <- _]].
  destruct (asMap _) as [resultResult|]; [|by intros [= <- _]].
  unfold mustMap, conversionPanic. munfold.
  destruct (mapIndex resultResult "block_id") as [| | | | |blockIDMap];
    try by intros [=].
  destruct (asString _); [|by intros [=]].
  destruct (mapIndex resultResult "block") as [| | | | |block];
    try by intros [=].
  destruct (mapIndex block "header") as [| | | | |header];
    try by intros [=].
  destruct (asString _); by intros [= <- _].
Qed.

(** [getBlockResults], read off the two replies. *)
Lemma getBlockResults_unfold height w :
  getBlockResults env height w =
  let w1 := setReqs (λ rs, rs ++ [blockResultsURL height]) w in
  match upstream env (length (reqs w)) (blockResultsURL height) with
  | GetFailed why =>
      (Ret (zeroBlockDetails, Some (Wrapf "error fetching block results" (External why))), w1)
  | GetOK resp =>
      match Decode (RespBody resp) with
      | inr err =>
          (Ret (zeroBlockDetails, Some (Wrapf "error decoding block results" err)), w1)
      | inl result =>
          match asMap (mapIndex result "result") with
          | None =>
              (Ret (zeroBlockDetails,
                    Some (Errorf "invalid or missing 'result' field in /block_results API response")),
               w1)
          | Some resultResult =>
              match getBlock env height w1 with
              | (Panic msg, w2) => (Panic msg, w2)
              | (Ret (_, Some err), w2) =>
                  (Ret (zeroBlockDetails,
                        Some (Wrapf "error fetching block_id from /block" err)), w2)
              | (Ret (blockData, None), w2) =>
                  match mapLookup resultResult "txs_results" with
                  | None =>
                      (Ret (zeroBlockDetails,
                            Some (Errorf "error extracting txs_results from block results")), w2)
                  | Some txsResults =>
                      match txsCount (Some txsResults) with
                      | Some n =>
                          (Ret (mkBlockDetails height (BlockID blockData) n (Proposer blockData)
                                  zeroTime zeroTime (mkNullTime zeroTime false) None, None), w2)
                      | None =>
                          (Ret (zeroBlockDetails,
                                Some (Errorf ("unexpected type for txs_results: "
                                                +:+ typeName txsResults))), w2)
                      end
                  end
              end
          end
      end
  end.
Proof.
  unfold getBlockResults. munfold. simpl.
  destruct (upstream env _ _) as [why|resp]; [done|].
  destruct (Decode _) as [result|err]; [|done].
  destruct (asMap _) as [resultResult|]; [|done].
  destruct (getBlock env height _) as [[[blockData [err|]]|msg] w2]; try done.
  destruct (mapLookup resultResult "txs_results") as [[| | | | |]|]; done.
Qed.

(** [FetchAndStoreBlockDetails], read off [getBlockResults]. *)
Lemma FetchAndStoreBlockDetails_unfold height w :
  FetchAndStoreBlockDetails env height w =
  match getBlockResults env height (setFetches (λ hs, hs ++ [height]) w) with
  | (Panic msg, w') => (Panic msg, w')
  | (Ret (_, Some err), w') =>
      (Ret (zeroBlockDetails, Some (Wrapf "error getting block details" err)), w')
  | (Ret (blockDetails, None), w') =>
      (Ret (blockDetails, None),
       setTasks (λ ts, ts ++ [mkTask height blockDetails Spawned]) w')
  end.
Proof.
  unfold FetchAndStoreBlockDetails. munfold. simpl.
  by destruct (getBlockResults env height _) as [[[bd [err|]]|msg] w'].
Qed.

(** [getBlockResults] touches nothing but the request log either. *)
Lemma getBlockResults_frame height w out w' :
  getBlockResults env height w = (out, w') →
  ∃ urls, w' = setReqs (λ rs, rs ++ urls) w.
Proof.
  rewrite getBlockResults_unfold. simpl.
  destruct (upstream env _ _) as [why|resp];
    [intros [= _ <-]; by exists [blockResultsURL height]|].
  destruct (Decode _) as [result|err];
    [|intros [= _ <-]; by exists [blockResultsURL height]].
  destruct (asMap _) as [resultResult|];
    [|intros [= _ <-]; by exists [blockResultsURL height]].
  destruct (getBlock env height _) as [out2 w2] eqn:Hblock.
  apply getBlock_frame in Hblock. subst w2.
  intros Hout. exists [blockResultsURL height; blockURL height].
  assert (w' = setReqs (λ rs, rs ++ [blockURL height])
                 (setReqs (λ rs, rs ++ [blockResultsURL height]) w)) as ->.
  { destruct out2 as [[bd [err|]]|msg]; simpl in Hout; [by inversion Hout| |by inversion Hout].
    destruct (mapLookup resultResult "txs_results") as [txs|]; [|by inversion Hout].
    destruct (txsCount (Some txs)); by inversion Hout. }
  unfold setReqs. simpl. by rewrite <- app_assoc.
Qed.

(** A successful composition carries the requested height, the identity
    of the block call and the count of ["txs_results"]; everything else is
    left at its zero value. *)
Lemma getBlockResults_ok height w bd w' :
  getBlockResults env height w = (Ret (bd, None), w') →
  ∃ resultResult n,
    resultOf (upstream env (length (reqs w)) (blockResultsURL height)) = Some resultResult
    ∧ txsCount (mapLookup resultResult "txs_results") = Some n
    ∧ bd = mkBlockDetails height (BlockID bd) n (Proposer bd) zeroTime zeroTime
             (mkNullTime zeroTime false) None.
Proof.
  rewrite getBlockResults_unfold. simpl. unfold resultOf.
  destruct (upstream env _ _) as [why|resp]; [by intros [=]|].
  destruct (Decode _) as [result|err]; [|by intros [=]].
  destruct (asMap _) as [resultResult|]; [|by intros [=]].
  destruct (getBlock env height _) as [[[blockData [err|]]|msg] w2]; try by intros [=].
  destruct (mapLookup resultResult "txs_results") as [txs|] eqn:Htxs; [|by intros [=]].
  destruct (txsCount (Some txs)) as [n|] eqn:Hn; [|by intros [=]].
  intros [= <- _]. exists resultResult, n. by rewrite Htxs.
Qed.

(** ** C1: a failed composition yields an error and nothing else *)


(** Conversely, an error comes out of the pipeline only in one of these
    ways, and a panic only out of [getBlock]. *)
Lemma fetch_error_only_when_upstream_fails height w bd err w' :
  FetchAndStoreBlockDetails env height w = (Ret (bd, Some err), w') →
  UpstreamFails env height w.
Proof.
  rewrite FetchAndStoreBlockDetails_unfold, getBlockResults_unfold. simpl.
  destruct (resultOf (resultsReply env height w)) as [rr|] eqn:Hreply;
    [|intros _; by apply results_unusable].
  pose proof Hreply as Hrr. unfold resultsReply, resultOf in Hrr.
  destruct (upstream env _ _) as [why|resp]; [done|].
  destruct (Decode _) as [result|derr]; [|done].
  rewrite Hrr.
  destruct (getBlock env height _) as [[[blockData [berr|]]|msg] w2] eqn:Hblock; [| |done].
  - intros _. by eapply block_call_failed.
  - destruct (txsCount (mapLookup rr "txs_results")) as [n|] eqn:Hn.
    + destruct (mapLookup rr "txs_results") as [txs|]; [|done]. by rewrite Hn.
    + intros _. by eapply txs_results_unusable.
Qed.

Lemma fetch_panics_only_in_getBlock height w msg w' :
  FetchAndStoreBlockDetails env height w = (Panic msg, w') →
  is_Some (resultOf (resultsReply env height w))
  ∧ getBlock env height (afterResultsRequest height w) = (Panic msg, w')
  ∧ blocks w' = blocks w ∧ tasks w' = tasks w.
Proof.
  rewrite FetchAndStoreBlockDetails_unfold.
  destruct (getBlockResults env height _) as [out w1] eqn:Hres.
  destruct (getBlockResults_frame _ _ _ _ Hres) as [urls ->].
  rewrite getBlockResults_unfold in Hres. simpl in Hres.
  unfold resultsReply, resultOf, afterResultsRequest.
  destruct out as [[bd [err|]]|msg1]; try by intros [=]. intros [= -> <-].
  destruct (upstream env _ _) as [why|resp]; [done|].
  destruct (Decode _) as [result|derr]; [|done].
  destruct (asMap _) as [rr|]; [|done].
  destruct (getBlock env height _) as [[[blockData [berr|]]|msg1] w2] eqn:Hblock.
  - done.
  - destruct (mapLookup rr "txs_results") as [txs|]; [|done].
    by destruct (txsCount (Some txs)).
  - injection Hres as -> ->. done.
Qed.

(** The pipeline records its invocation and leaves the table alone. *)
Lemma FetchAndStoreBlockDetails_frame height w out w' :
  FetchAndStoreBlockDetails env height w = (out, w') →
  fetches w' = fetches w ++ [height] ∧ blocks w' = blocks w
  ∧ stmts w' = stmts w ∧ clock w' = clock w ∧ logs w' = logs w.
Proof.
  rewrite FetchAndStoreBlockDetails_unfold.
  destruct (getBlockResults env height _) as [out1 w1] eqn:Hres.
  destruct (getBlockResults_frame _ _ _ _ Hres) as [urls ->].
  destruct out1 as [[bd [err|]]|msg]; by intros [= _ <-].
Qed.

Lemma FetchAndStoreBlockDetails_ok height w bd w' :
  FetchAndStoreBlockDetails env height w = (Ret (bd, None), w') →
  (∃ resultResult n,
     resultOf (resultsReply env height w) = Some resultResult
     ∧ txsCount (mapLookup resultResult "txs_results") = Some n
     ∧ bd = mkBlockDetails height (BlockID bd) n (Proposer bd) zeroTime zeroTime
              (mkNullTime zeroTime false) None)
  ∧ tasks w' = tasks w ++ [mkTask height bd Spawned].
Proof.
  rewrite FetchAndStoreBlockDetails_unfold.
  destruct (getBlockResults env height _) as [out1 w1] eqn:Hres.
  destruct (getBlockResults_frame _ _ _ _ Hres) as [urls ->].
  destruct out1 as [[bd1 [err|]]|msg]; try by intros [=].
  intros [= -> <-]. split; [|done].
  by apply getBlockResults_ok in Hres.
Qed.

(** [GetBlockDetails], read off the lookup and the pipeline. *)
Lemma GetBlockDetails_unfold height w :
  GetBlockDetails env height w =
  let w1 := setStmts S w in
  match db_fault env (stmts w) with
  | Some why =>
      (Ret (None, Some (Wrapf "error fetching block details from database" (External why))), w1)
  | None =>
      match blocks w !! height with
      | Some r => (Ret (Some (scanRow height r), None), w1)
      | None =>
          match FetchAndStoreBlockDetails env height w1 with
          | (Ret (blockDetails, None), w2) => (Ret (Some blockDetails, None), w2)
          | (Ret (_, Some err), w2) =>
              (Ret (None, Some (Wrapf "error fetching and storing block details" err)), w2)
          | (Panic msg, w2) => (Panic msg, w2)
          end
      end
  end.
Proof.
  unfold GetBlockDetails, queryRowScan. munfold. simpl.
  destruct (db_fault env (stmts w)) as [why|]; [done|].
  destruct (blocks w !! height) as [r|]; [done|]. simpl.
  by destruct (FetchAndStoreBlockDetails env height _) as [[[bd [err|]]|msg] w2].
Qed.

(** ** C2: a hit is answered from the table *)


(** ** C3: a miss goes through the pipeline once, a fault goes nowhere *)

(** C3.  When the lookup is not a hit: if the database reports a failure
    other than "no rows", [GetBlockDetails] returns that failure wrapped
    as a storage error, with no record, without entering the Fetch
    Pipeline and without any upstream request; if the row is absent, the
    Fetch Pipeline is entered exactly once, for the requested height, its
    outcome is what [GetBlockDetails] returns, and a returned record
    carries the requested height. *)
Theorem miss_invokes_pipeline_once_and_fault_is_wrapped height w :
  blocks w !! height = None ∨ db_fault env (stmts w) ≠ None →
  match db_fault env (stmts w) with
  | Some why =>
      ∃ w',
        GetBlockDetails env height w =
          (Ret (None, Some (Wrapf "error fetching block details from database"
                              (External why))), w')
        ∧ fetches w' = fetches w ∧ reqs w' = reqs w ∧ tasks w' = tasks w
  | None =>
      GetBlockDetails env height w =
        match FetchAndStoreBlockDetails env height (setStmts S w) with
        | (Ret (blockDetails, None), w') => (Ret (Some blockDetails, None), w')
        | (Ret (_, Some err), w') =>
            (Ret (None, Some (Wrapf "error fetching and storing block details" err)), w')
        | (Panic msg, w') => (Panic msg, w')
        end
      ∧ fetches (GetBlockDetails env height w).2 = fetches w ++ [height]
      ∧ ∀ bd w', GetBlockDetails env height w = (Ret (Some bd, None), w') →
                 Height bd = height
  end.
Proof.
  intros Hmiss. rewrite !GetBlockDetails_unfold. simpl.
  destruct (db_fault env (stmts w)) as [why|] eqn:Hdb; [by eexists|].
  destruct Hmiss as [Hrow|]; [|done]. rewrite Hrow.
  destruct (FetchAndStoreBlockDetails env height _) as [out w1] eqn:Hfetch.
  pose proof (FetchAndStoreBlockDetails_frame _ _ _ _ Hfetch) as (Hfetches & _).
  split; [done|]. split; [by destruct out as [[bd [err|]]|msg]|].
  intros bd w'. destruct out as [[bd1 [err|]]|msg]; try by intros [=].
  intros [= -> ->].
  apply FetchAndStoreBlockDetails_ok in Hfetch as [(rr & n & _ & _ & ->) _]. done.
Qed.

(** ** C9: the transaction count *)

Lemma upsert_lookup height blockID proposer n detailsJSON createdAt updatedAt tbl :
  upsert height blockID proposer n detailsJSON createdAt updatedAt tbl !! height =
  Some (mkRow blockID proposer n (Some detailsJSON)
          (from_option created_at createdAt (tbl !! height)) updatedAt
          (tbl !! height ≫= deleted_at)).
Proof.
  unfold upsert. destruct (tbl !! height) as [old|]; by rewrite lookup_insert_eq.
Qed.

Lemma upsert_lookup_ne height height' blockID proposer n detailsJSON createdAt updatedAt tbl :
  height ≠ height' →
  upsert height blockID proposer n detailsJSON createdAt updatedAt tbl !! height' =
  tbl !! height'.
Proof.
  intros. unfold upsert. destruct (tbl !! height) as [old|]; by rewrite lookup_insert_ne.
Qed.

(** C9.  When the Fetch Pipeline succeeds, the ["txs_results"] entry of
    the block-results reply is a list or null; the transaction count of
    the returned record is the length of the list, respectively 0; it is
    not negative; and the persistence goroutine started for the height
    carries that same record, so the row it writes holds the same count. *)
Theorem transaction_count_is_number_of_results height w bd w' :
  FetchAndStoreBlockDetails env height w = (Ret (bd, None), w') →
  ∃ resultResult,
    resultOf (resultsReply env height w) = Some resultResult
    ∧ match mapLookup resultResult "txs_results" with
      | Some (VSlice txs) => NumTransactions bd = Z.of_nat (length txs)
      | Some VNil => NumTransactions bd = 0
      | _ => False
      end
    ∧ 0 ≤ NumTransactions bd
    ∧ tasks w' = tasks w ++ [mkTask height bd Spawned]
    ∧ ∀ detailsJSON currentTime w2,
        db_fault env (stmts w2) = None →
        num_transactions <$>
          blocks (runTask env (mkTask height bd (Stamped detailsJSON currentTime)) w2).2
            !! height
        = Some (NumTransactions bd).
Proof.
  intros Hfetch.
  apply FetchAndStoreBlockDetails_ok in Hfetch as [(rr & n & Hrr & Hn & Hbd) Htasks].
  exists rr. split; [done|].
  assert (NumTransactions bd = n) as Hcount by (by rewrite Hbd).
  repeat split; [| |done|].
  - unfold txsCount in Hn.
    destruct (mapLookup rr "txs_results") as [[| | | |txs|]|]; try done; congruence.
  - unfold txsCount in Hn.
    destruct (mapLookup rr "txs_results") as [[| | | |txs|]|]; try done;
      injection Hn as <-; lia.
  - intros detailsJSON currentTime w2 Hdb. unfold runTask. simpl. rewrite Hdb. simpl.
    by rewrite upsert_lookup.
Qed.

(** ** C10: what a miss hands back *)

(** C10.  On a successful miss the record [GetBlockDetails] returns is
    built from the height, the block identifier, the proposer and the
    transaction count alone: both timestamps are the zero instant, the
    soft-delete time is invalid and the details are nil.  The persistence
    goroutine has only been started and has not read the clock; the
    instant it reads later goes into the row, not into the returned
    record.  Once that goroutine has inserted the row, a lookup of the
    height is a hit whose timestamps are the instant the goroutine
    read. *)
Theorem miss_returns_record_without_timestamps height w bd w' :
  blocks w !! height = None →
  db_fault env (stmts w) = None →
  GetBlockDetails env height w = (Ret (Some bd, None), w') →
  bd = mkBlockDetails height (BlockID bd) (NumTransactions bd) (Proposer bd)
         zeroTime zeroTime (mkNullTime zeroTime false) None
  ∧ tasks w' = tasks w ++ [mkTask height bd Spawned]
  ∧ ∀ w1 w2,
      blocks w2 !! height = None →
      db_fault env (stmts w2) = None →
      db_fault env (S (stmts w2)) = None →
      ∃ t1 w3 bd2 w4,
        runTask env (mkTask height bd Spawned) w1 = (Some t1, w1)
        ∧ runTask env t1 w2 = (None, w3)
        ∧ GetBlockDetails env height w3 = (Ret (Some bd2, None), w4)
        ∧ CreatedAt bd2 = clock w1 ∧ UpdatedAt bd2 = clock w1
        ∧ Height bd2 = height ∧ BlockID bd2 = BlockID bd
        ∧ Proposer bd2 = Proposer bd ∧ NumTransactions bd2 = NumTransactions bd.
Proof.
  intros Hrow Hdb. rewrite GetBlockDetails_unfold. simpl. rewrite Hdb, Hrow.
  destruct (FetchAndStoreBlockDetails env height _) as [[[bd1 [err|]]|msg] w1] eqn:Hfetch;
    try by intros [=].
  intros [= -> ->].
  apply FetchAndStoreBlockDetails_ok in Hfetch as [(rr & n & _ & _ & Hbd) Htasks].
  assert (Details bd = None) as Hdetails by (by rewrite Hbd).
  assert (NumTransactions bd = n) as Hcount by (by rewrite Hbd).
  split; [by rewrite Hcount|]. split; [done|].
  intros w1 w2 Hrow2 Hdb2 Hdb3.
  eexists _, _, _, _. unfold runTask at 1. simpl. rewrite Hdetails. simpl.
  split; [done|]. unfold runTask. simpl. rewrite Hdb2.
  split; [done|]. rewrite GetBlockDetails_unfold. simpl. rewrite Hdb3.
  rewrite upsert_lookup, Hrow2. simpl. done.
Qed.

(** ** C7: the ceiling and the tip *)

(** [GetLatestBlockHeightFromREST] checks every assertion: it never
    panics, and it touches nothing but the request log. *)
Lemma GetLatestBlockHeightFromREST_returns w :
  ∃ height err,
    GetLatestBlockHeightFromREST env w =
      (Ret (height, err), setReqs (λ rs, rs ++ [latestBlockURL]) w)
    ∧ (err ≠ None → height = 0) ∧ inInt64 height.
Proof.
  assert (inInt64 0) as Hzero by (by int64_bounds).
  unfold GetLatestBlockHeightFromREST. munfold. simpl.
  destruct (upstream env _ _) as [why|resp]; [by eexists _, _|].
  case_bool_decide; [by eexists _, _|].
  destruct (Decode _) as [result|err]; [|by eexists _, _].
  destruct (asMap _) as [block|]; [|by eexists _, _].
  destruct (asMap _) as [header|]; [|by eexists _, _].
  destruct (asString _) as [heightStr|]; [|by eexists _, _].
  destruct (ParseInt heightStr) as [height [err|]] eqn:Hparse; [by eexists _, _|].
  eexists _, _. split; [done|]. split; [done|]. by eapply ParseInt_range.
Qed.

Lemma startIndexing_unfold minH maxH w :
  startIndexing env minH maxH w =
  match GetLatestBlockHeightFromREST env w with
  | (Panic msg, w1) => (Panic msg, w1)
  | (Ret (latestHeight, err), w1) =>
      let w2 := match err with
                | Some err => setLogs (λ ls, ls ++ [LogLatestHeightError err]) w1
                | None => w1
                end in
      if bool_decide (latestHeight > maxH)
      then (Ret (mkScan minH latestHeight latestHeight AtLoop 0 0 []),
            setLogs (λ ls, ls ++ [LogMaxRaised latestHeight maxH]) w2)
      else (Ret (mkScan minH maxH maxH AtLoop 0 0 []), w2)
  end.
Proof.
  unfold startIndexing. munfold.
  destruct (GetLatestBlockHeightFromREST env w) as [[[latestHeight [err|]]|msg] w1];
    simpl; try case_bool_decide; done.
Qed.

(** C7.  When the tip is resolved to T at the start of a pass called with
    ceiling C, the pass starts at max(C, T) and keeps that as its upper
    bound: it is T when T exceeds C (and the raise is logged), and C
    otherwise (and nothing is logged).  The ceiling [main] computes at
    start-up from its constant and the tip obeys the same law. *)
Theorem tip_merge_law minH C T w w1 :
  GetLatestBlockHeightFromREST env w = (Ret (T, None), w1) →
  (∃ s w',
     startIndexing env minH C w = (Ret s, w')
     ∧ maxBlockHeight s = Z.max C T ∧ currentHeight s = Z.max C T
     ∧ minBlockHeight s = minH ∧ pc s = AtLoop ∧ units s = []
     ∧ (T > C → maxBlockHeight s = T ∧ logs w' = logs w ++ [LogMaxRaised T C])
     ∧ (T ≤ C → maxBlockHeight s = C ∧ logs w' = logs w))
  ∧ ∃ w', mainCeiling env C w = (Ret (Z.max C T), w').
Proof.
  intros Htip.
  destruct (GetLatestBlockHeightFromREST_returns w) as (T' & err & Heq & _).
  rewrite Heq in Htip. injection Htip as -> -> <-.
  split.
  - rewrite startIndexing_unfold, Heq. simpl.
    case_bool_decide; eexists _, _; (split; [done|]); simpl;
      repeat split; try done; lia.
  - unfold mainCeiling. munfold. rewrite Heq. simpl.
    case_bool_decide; eexists; do 2 f_equal; lia.
Qed.

(** ** C4: what a step of the process does to the table *)

Lemma GetBlockDetails_blocks height w :
  blocks (GetBlockDetails env height w).2 = blocks w.
Proof.
  rewrite GetBlockDetails_unfold. simpl.
  destruct (db_fault env (stmts w)); [done|].
  destruct (blocks w !! height); [done|].
  destruct (FetchAndStoreBlockDetails env height _) as [out w1] eqn:Hfetch.
  apply FetchAndStoreBlockDetails_frame in Hfetch as (_ & Hblocks & _).
  by destruct out as [[bd [err|]]|msg].
Qed.

(** The only step that changes the table is the [ExecContext] slice of a
    persistence goroutine, and what it does is the upsert with the
    instant the goroutine read earlier. *)
Lemma step_blocks l p1 p2 :
  step env l p1 = Some p2 →
  blocks (worldOf p2) = blocks (worldOf p1)
  ∨ ∃ i t detailsJSON currentTime,
      l = LTask i ∧ tasks (worldOf p1) !! i = Some t
      ∧ t_phase t = Stamped detailsJSON currentTime
      ∧ blocks (worldOf p2) =
          upsert (t_height t) (BlockID (t_block t)) (Proposer (t_block t))
            (NumTransactions (t_block t)) detailsJSON currentTime currentTime
            (blocks (worldOf p1)).
Proof.
  destruct p1 as [s w|msg w]; [|done]. destruct l as [d|i| |i|height]; simpl.
  - intros [= <-]. by left.
  - unfold taskStep. destruct (tasks w !! i) as [t|] eqn:Ht; [|done]. simpl.
    unfold runTask.
    destruct (t_phase t) as [|detailsJSON currentTime] eqn:Hphase.
    + destruct (marshalDetails env _); intros [= <-]; by left.
    + destruct (db_fault env (stmts w)); intros [= <-]; [by left|].
      right. by exists i, t, detailsJSON, currentTime.
  - destruct (mainStep s); intros [= <-]. by left.
  - unfold unitStep. destruct (units s !! i) as [u|]; [|done]. simpl.
    destruct (u_phase u).
    + destruct (FetchAndStoreBlockDetails env (u_height u) w) as [out w1] eqn:Hfetch.
      apply FetchAndStoreBlockDetails_frame in Hfetch as (_ & Hblocks & _).
      destruct out as [[bd [err|]]|msg]; intros [= <-]; by left.
    + destruct (semaphore s); intros [= <-]. by left.
    + intros [= <-]. by left.
    + done.
  - intros [= <-]. left. apply GetBlockDetails_blocks.
Qed.

(** C4 (amended).  The upsert of a persistence goroutine, keyed by
    height, inserts a row with both timestamps set to the instant the
    goroutine read and no soft-delete time when the height has no row,
    and otherwise overwrites block identifier, proposer, transaction
    count, details and the updated timestamp while the created timestamp
    and the soft-delete time of the existing row stay; rows of other
    heights are untouched.  Across any step of the process a row is never
    removed and its created timestamp never changes; its updated
    timestamp does not decrease provided the upsert that is executed
    carries an instant no earlier than the one stored. *)
Theorem upsert_keeps_created_at_and_stamps_updated_at l p1 p2 height :
  step env l p1 = Some p2 →
  (∀ t detailsJSON currentTime w,
     t_phase t = Stamped detailsJSON currentTime →
     db_fault env (stmts w) = None →
     blocks (runTask env t w).2 !! t_height t =
       Some (match blocks w !! t_height t with
             | None =>
                 mkRow (BlockID (t_block t)) (Proposer (t_block t))
                   (NumTransactions (t_block t)) (Some detailsJSON)
                   currentTime currentTime None
             | Some old =>
                 mkRow (BlockID (t_block t)) (Proposer (t_block t))
                   (NumTransactions (t_block t)) (Some detailsJSON)
                   (created_at old) currentTime (deleted_at old)
             end)
     ∧ ∀ other, t_height t ≠ other →
         blocks (runTask env t w).2 !! other = blocks w !! other)
  ∧ (∀ r1, blocks (worldOf p1) !! height = Some r1 →
       ∃ r2, blocks (worldOf p2) !! height = Some r2
             ∧ created_at r2 = created_at r1
             ∧ deleted_at r2 = deleted_at r1
             ∧ ((∀ i t detailsJSON currentTime,
                   l = LTask i → tasks (worldOf p1) !! i = Some t →
                   t_phase t = Stamped detailsJSON currentTime →
                   updated_at r1 ≤ currentTime) →
                updated_at r1 ≤ updated_at r2)).
Proof.
  intros Hstep. split.
  - intros t detailsJSON currentTime w Hphase Hdb. unfold runTask.
    rewrite Hphase, Hdb. simpl. split.
    + rewrite upsert_lookup. by destruct (blocks w !! t_height t).
    + intros other Hne. by rewrite upsert_lookup_ne.
  - intros r1 Hr1.
    destruct (step_blocks _ _ _ Hstep)
      as [->|(i & t & detailsJSON & currentTime & -> & Ht & Hphase & ->)].
    { exists r1. repeat split; [done|lia]. }
    destruct (decide (t_height t = height)) as [<-|Hne].
    + rewrite upsert_lookup, Hr1. simpl. eexists. split; [done|]. simpl.
      repeat split. intros Horder. by eapply Horder.
    + rewrite upsert_lookup_ne by done. exists r1. repeat split; [done|lia].
Qed.

End Facts.

(** ** The scanner *)

Lemma wrap64_id z : inInt64 z → wrap64 z = z.
Proof. int64_bounds. intros Hz. rewrite Z.mod_small; lia. Qed.

Lemma wrap64_range z : inInt64 (wrap64 z).
Proof.
  int64_bounds.
  pose proof (Z.mod_pos_bound (z + 9223372036854775808) 18446744073709551616). lia.
Qed.

Lemma countActive_app us vs :
  countActive (us ++ vs) = (countActive us + countActive vs)%nat.
Proof. induction us as [|u us IH]; simpl; [done|]. rewrite IH. lia. Qed.

Lemma countOpen_app us vs :
  countOpen (us ++ vs) = (countOpen us + countOpen vs)%nat.
Proof. induction us as [|u us IH]; simpl; [done|]. rewrite IH. lia. Qed.

Lemma countActive_alter us i u ph :
  us !! i = Some u →
  (countActive (alter (λ u, mkUnit (u_height u) ph) i us)
   + (if holdsSlot u then 1 else 0)
   = countActive us + (if holdsSlot (mkUnit (u_height u) ph) then 1 else 0))%nat.
Proof.
  revert i. induction us as [|v us IH]; intros [|i]; try done.
  - intros [= ->]. cbn. destruct (holdsSlot u), ph; cbn; lia.
  - intros Hi. specialize (IH _ Hi). cbn in *.
    destruct (holdsSlot v), (holdsSlot u), ph; cbn in *; lia.
Qed.

Lemma countOpen_alter us i u ph :
  us !! i = Some u →
  (countOpen (alter (λ u, mkUnit (u_height u) ph) i us)
   + (if bool_decide (u_phase u = Exited) then 0 else 1)
   = countOpen us + (if bool_decide (ph = Exited) then 0 else 1))%nat.
Proof.
  revert i. induction us as [|v us IH]; intros [|i]; try done.
  - intros [= ->]. cbn. repeat case_bool_decide; lia.
  - intros Hi. specialize (IH _ Hi). cbn in *.
    repeat case_bool_decide; lia.
Qed.

Lemma heights_alter (us : list FetchUnit) (i : nat) ph :
  u_height <$> alter (λ u, mkUnit (u_height u) ph) i us = u_height <$> us.
Proof. revert i. induction us as [|v us IH]; intros [|i]; f_equal/=; auto. Qed.

Lemma countOpen_zero (us : list FetchUnit) :
  countOpen us = O ↔ Forall (λ u, u_phase u = Exited) us.
Proof.
  induction us as [|u us IH]; simpl; [by split|].
  rewrite Forall_cons, <- IH. case_bool_decide; [tauto|]. split; [lia|tauto].
Qed.

Lemma descending_length hi n : length (descending hi n) = n.
Proof. revert hi. induction n; intros; simpl; by f_equal. Qed.

Lemma descending_snoc hi n :
  descending hi (S n) = descending hi n ++ [hi - Z.of_nat n].
Proof.
  revert hi. induction n as [|n IH]; intros hi.
  - simpl. f_equal. lia.
  - change (descending hi (S (S n))) with (hi :: descending (hi - 1) (S n)).
    rewrite IH. simpl. do 3 f_equal. lia.
Qed.

Lemma elem_of_descending h hi n :
  h ∈ descending hi n ↔ hi - Z.of_nat n < h ≤ hi.
Proof.
  revert hi. induction n as [|n IH]; intros hi; simpl.
  - rewrite elem_of_nil. lia.
  - rewrite elem_of_cons, IH. lia.
Qed.

Lemma NoDup_descending hi n : NoDup (descending hi n).
Proof.
  revert hi. induction n as [|n IH]; intros hi; simpl; constructor; [|done].
  rewrite elem_of_descending. lia.
Qed.

Lemma elem_of_descRange h hi lo : lo ≤ hi + 1 → h ∈ descRange hi lo ↔ lo ≤ h ≤ hi.
Proof. intros. unfold descRange. rewrite elem_of_descending. lia. Qed.

Lemma run_app (env : Env) ls1 ls2 p :
  run env (ls1 ++ ls2) p = run env ls1 p ≫= run env ls2.
Proof.
  revert p. induction ls1 as [|l ls1 IH]; intros p; simpl; [done|].
  destruct (step env l p); simpl; [apply IH|done].
Qed.

Section Scanner.

Variable env : Env.

(** *** C6: the admission gate *)

Lemma GateInv_mainStep s s' : GateInv s → mainStep s = Some s' → GateInv s'.
Proof.
  unfold GateInv, mainStep, semaphoreCap. intros [Hsem Hcap].
  destruct (pc s) eqn:Hpc; repeat case_bool_decide; try done;
    intros [= <-]; simpl; rewrite ?countActive_app; simpl;
    repeat case_bool_decide; try done; lia.
Qed.

Lemma GateInv_unitStep i s w s' w' :
  GateInv s → unitStep env i s w = Some (Alive s' w') → GateInv s'.
Proof.
  unfold GateInv, unitStep. intros [Hsem Hcap].
  destruct (units s !! i) as [u|] eqn:Hu; [|done]. simpl.
  destruct (u_phase u) eqn:Hphase.
  - destruct (FetchAndStoreBlockDetails env (u_height u) w) as [[[bd err]|msg] w1];
      [|done].
    intros [= <- _]. simpl. unfold setUnit.
    pose proof (countActive_alter _ _ _ Finished Hu) as Hcount.
    unfold holdsSlot in Hcount at 1 2. rewrite Hphase in Hcount. simpl in Hcount. lia.
  - destruct (semaphore s) as [|n] eqn:Hn; [done|].
    intros [= <- _]. simpl. unfold setUnit.
    pose proof (countActive_alter _ _ _ Released Hu) as Hcount.
    unfold holdsSlot in Hcount at 1 2. rewrite Hphase in Hcount. simpl in Hcount. lia.
  - intros [= <- _]. simpl. unfold setUnit.
    pose proof (countActive_alter _ _ _ Exited Hu) as Hcount.
    unfold holdsSlot in Hcount at 1 2. rewrite Hphase in Hcount. simpl in Hcount. lia.
  - done.
Qed.

(** What a step does to the scanner state: nothing, a move of the caller,
    or a move of a unit. *)
Lemma step_scan l s w s' w' :
  step env l (Alive s w) = Some (Alive s' w') →
  s' = s ∨ mainStep s = Some s' ∨ ∃ i, unitStep env i s w = Some (Alive s' w').
Proof.
  destruct l as [d|i| |i|height]; simpl.
  - intros [= <- _]. by left.
  - destruct (taskStep env i w); intros [= <- _]. by left.
  - destruct (mainStep s); intros [= <- _]. right. by left.
  - intros Hstep. right. right. by exists i.
  - intros [= <- _]. by left.
Qed.

Lemma run_Crashed ls msg w p : run env ls (Crashed msg w) = Some p → p = Crashed msg w.
Proof. destruct ls; simpl; [by intros [= <-]|done]. Qed.

(** Induction over the runs of the process, for properties of the scanner
    state that the caller's and the units' moves preserve. *)
Lemma run_scan_ind (P : Scan → Prop) :
  (∀ s s', P s → mainStep s = Some s' → P s') →
  (∀ i s w s' w', P s → unitStep env i s w = Some (Alive s' w') → P s') →
  ∀ ls s w s' w', P s → run env ls (Alive s w) = Some (Alive s' w') → P s'.
Proof.
  intros Hmain Hunit. induction ls as [|l ls IH]; intros s w s' w' HP; cbn [run].
  - by intros [= <- _].
  - destruct (step env l (Alive s w)) as [[s1 w1|msg w1]|] eqn:Hstep; simpl; [| |done].
    + intros Hrun. eapply IH; [|done].
      destruct (step_scan _ _ _ _ _ Hstep) as [->|[?|[i ?]]]; eauto.
    + by intros ?%run_Crashed.
Qed.

(** How a pass starts. *)
Lemma startIndexing_init minH maxH w s0 w0 :
  inInt64 maxH →
  startIndexing env minH maxH w = (Ret s0, w0) →
  ∃ hi, s0 = mkScan minH hi hi AtLoop 0 0 [] ∧ maxH ≤ hi ∧ inInt64 hi.
Proof.
  intros HmaxH. rewrite startIndexing_unfold.
  destruct (GetLatestBlockHeightFromREST_returns env w) as (T & err & -> & _ & HT).
  simpl. case_bool_decide; intros [= <- _]; eexists; (split; [done|]); split; (done || lia).
Qed.

Lemma GateInv_init minH hi : GateInv (mkScan minH hi hi AtLoop 0 0 []).
Proof. unfold GateInv, semaphoreCap. simpl. split; [done|lia]. Qed.

(** C6.  In every state of a pass the number of units holding a slot
    (started, deferred receive not yet run) is at most 100, and the
    channel holds exactly one element per such unit, plus one while the
    caller is between its send and its [go] statement.  With 100 units
    active the caller cannot get past its send: no further unit starts
    until a slot is freed.  With fewer it is admitted.  A unit whose body
    has finished frees its slot in its next step, which lowers the number
    of active units by one. *)
Theorem active_units_never_exceed_cap minH maxH w s0 w0 ls s w' :
  startIndexing env minH maxH w = (Ret s0, w0) →
  run env ls (Alive s0 w0) = Some (Alive s w') →
  (activeUnits s ≤ 100)%nat
  ∧ semaphore s = (activeUnits s + (if bool_decide (pc s = AtGo) then 1 else 0))%nat
  ∧ (pc s = AtAcquire → activeUnits s = 100%nat → mainStep s = None)
  ∧ (pc s = AtAcquire → (activeUnits s < 100)%nat →
     ∃ s', mainStep s = Some s' ∧ pc s' = AtGo ∧ units s' = units s)
  ∧ ∀ i u, units s !! i = Some u → u_phase u = Finished →
      ∃ s', unitStep env i s w' = Some (Alive s' w')
            ∧ activeUnits s = S (activeUnits s').
Proof.
  intros Hstart Hrun.
  assert (GateInv s) as [Hsem Hcap].
  { eapply (run_scan_ind GateInv); [apply GateInv_mainStep|apply GateInv_unitStep| |done].
    rewrite startIndexing_unfold in Hstart.
    destruct (GetLatestBlockHeightFromREST_returns env w) as (T & err & Heq & _).
    rewrite Heq in Hstart. simpl in Hstart.
    case_bool_decide; injection Hstart as <- _; apply GateInv_init. }
  unfold activeUnits, semaphoreCap in *. split; [lia|]. split; [done|].
  split; [|split].
  - intros Hpc Hfull. unfold mainStep. rewrite Hpc. unfold semaphoreCap.
    rewrite Hpc in Hsem. simpl in Hsem. by rewrite bool_decide_eq_false_2 by lia.
  - intros Hpc Hroom. unfold mainStep. rewrite Hpc. unfold semaphoreCap.
    rewrite Hpc in Hsem. simpl in Hsem. rewrite bool_decide_eq_true_2 by lia.
    by eexists.
  - intros i u Hu Hphase. unfold unitStep. rewrite Hu. simpl. rewrite Hphase.
    pose proof (countActive_alter _ _ _ Released Hu) as Hcount.
    unfold holdsSlot in Hcount at 1 2. rewrite Hphase in Hcount. simpl in Hcount.
    destruct (semaphore s) as [|n]; [lia|].
    eexists. split; [done|]. simpl. unfold setUnit. lia.
Qed.

(** *** C5: the sweep *)

Section Sweep.

Variables lo hi : Z.
Hypothesis lo_not_least : minInt64 < lo.
Hypothesis hi_int64 : hi ≤ maxInt64.

Lemma SweepInv_init : lo ≤ hi + 1 → SweepInv lo hi (mkScan lo hi hi AtLoop 0 0 []).
Proof. intros. split; simpl; try done; lia. Qed.

Lemma SweepInv_mainStep s s' : SweepInv lo hi s → mainStep s = Some s' → SweepInv lo hi s'.
Proof.
  intros [Hmin Hmax Hheights Hcur Hfloor Hbody Hdone Hwg Hret]. unfold mainStep.
  destruct (pc s) eqn:Hpc; simpl in *.
  - case_bool_decide; intros [= <-]; split; simpl; try done; lia.
  - case_bool_decide; [|done]. intros [= <-]. split; simpl; done.
  - intros [= <-]. specialize (Hbody eq_refl).
    assert (dec64 (currentHeight s) = currentHeight s - 1) as Hdec.
    { unfold dec64. apply wrap64_id. int64_bounds. lia. }
    split; simpl; try done.
    + rewrite fmap_app, length_app, Hheights. simpl.
      rewrite Nat.add_1_r, descending_snoc. do 2 f_equal. lia.
    + rewrite length_app. simpl. lia.
    + lia.
    + rewrite countOpen_app. simpl. lia.
  - case_bool_decide; [|done]. intros [= <-]. split; simpl; try done. lia.
  - done.
Qed.

Lemma SweepInv_unitStep i s w s' w' :
  SweepInv lo hi s → unitStep env i s w = Some (Alive s' w') → SweepInv lo hi s'.
Proof.
  intros [Hmin Hmax Hheights Hcur Hfloor Hbody Hdone Hwg Hret]. unfold unitStep.
  destruct (units s !! i) as [u|] eqn:Hu; [|done]. simpl.
  assert (∀ ph, length (setUnit i ph s) = length (units s)) as Hlen.
  { intros ph. unfold setUnit. apply length_alter. }
  assert (∀ ph, u_height <$> setUnit i ph s = u_height <$> units s) as Hsame.
  { intros ph. apply heights_alter. }
  destruct (u_phase u) eqn:Hphase.
  - destruct (FetchAndStoreBlockDetails env (u_height u) w) as [[[bd err]|msg] w1];
      [|done].
    pose proof (countOpen_alter _ _ _ Finished Hu) as Hcount.
    rewrite Hphase in Hcount. simpl in Hcount.
    intros [= <- _]. split; simpl; rewrite ?Hlen, ?Hsame; try done; unfold setUnit;
      try (intros Hpc; specialize (Hret Hpc)); lia.
  - destruct (semaphore s); [done|].
    pose proof (countOpen_alter _ _ _ Released Hu) as Hcount.
    rewrite Hphase in Hcount. simpl in Hcount.
    intros [= <- _]. split; simpl; rewrite ?Hlen, ?Hsame; try done; unfold setUnit;
      try (intros Hpc; specialize (Hret Hpc)); lia.
  - pose proof (countOpen_alter _ _ _ Exited Hu) as Hcount.
    rewrite Hphase in Hcount. simpl in Hcount.
    intros [= <- _]. split; simpl; rewrite ?Hlen, ?Hsame; try done; unfold setUnit;
      try (intros Hpc; specialize (Hret Hpc)); lia.
  - done.
Qed.

Lemma SweepInv_run ls s w s' w' :
  SweepInv lo hi s → run env ls (Alive s w) = Some (Alive s' w') → SweepInv lo hi s'.
Proof.
  apply (run_scan_ind (SweepInv lo hi)); [apply SweepInv_mainStep|apply SweepInv_unitStep].
Qed.

End Sweep.

(** *** A schedule that completes the pass

    Each unit is run to its end right after it has been started. *)

Lemma alter_last (f : FetchUnit → FetchUnit) us u :
  alter f (length us) (us ++ [u]) = us ++ [f u].
Proof.
  rewrite <- (Nat.add_0_r (length us)). by rewrite alter_app_r.
Qed.

Lemma start_one_unit minH maxH cur us w :
  cur >= minH →
  run env [LMain; LMain; LMain] (Alive (mkScan minH maxH cur AtLoop 0 0 us) w) =
  Some (Alive (mkScan minH maxH (dec64 cur) AtLoop 1 1 (us ++ [mkUnit cur Fetching])) w).
Proof.
  intros Hcur. cbn [run step mbind option_bind]. unfold mainStep at 1. simpl.
  rewrite bool_decide_eq_true_2 by done. simpl. done.
Qed.

Lemma unitStep_last_fetching minH maxH cur p sem n height us w :
  unitStep env (length us)
    (mkScan minH maxH cur p sem n (us ++ [mkUnit height Fetching])) w =
  match FetchAndStoreBlockDetails env height w with
  | (Ret (_, err), w') =>
      Some (Alive (mkScan minH maxH cur p sem n (us ++ [mkUnit height Finished]))
              match err with
              | Some err => setLogs (λ ls, ls ++ [LogIndexError height err]) w'
              | None => w'
              end)
  | (Panic msg, w') => Some (Crashed msg w')
  end.
Proof.
  unfold unitStep. simpl. rewrite list_lookup_middle by done. simpl.
  destruct (FetchAndStoreBlockDetails env height w) as [[[bd err]|msg] w1]; [|done].
  unfold setUnit. simpl. by rewrite alter_last.
Qed.

Lemma unitStep_last_finished minH maxH cur p sem n height us w :
  unitStep env (length us)
    (mkScan minH maxH cur p (S sem) n (us ++ [mkUnit height Finished])) w =
  Some (Alive (mkScan minH maxH cur p sem n (us ++ [mkUnit height Released])) w).
Proof.
  unfold unitStep. simpl. rewrite list_lookup_middle by done. simpl.
  unfold setUnit. simpl. by rewrite alter_last.
Qed.

Lemma unitStep_last_released minH maxH cur p sem n height us w :
  unitStep env (length us)
    (mkScan minH maxH cur p sem n (us ++ [mkUnit height Released])) w =
  Some (Alive (mkScan minH maxH cur p sem (n - 1) (us ++ [mkUnit height Exited])) w).
Proof.
  unfold unitStep. simpl. rewrite list_lookup_middle by done. simpl.
  unfold setUnit. simpl. by rewrite alter_last.
Qed.

Lemma run_one_unit minH maxH cur height us w :
  let s := mkScan minH maxH cur AtLoop 1 1 (us ++ [mkUnit height Fetching]) in
  (∃ p, run env [LUnit (length us)] (Alive s w) = Some p ∧ isCrashed p)
  ∨ ∃ w', run env [LUnit (length us); LUnit (length us); LUnit (length us)] (Alive s w) =
          Some (Alive (mkScan minH maxH cur AtLoop 0 0 (us ++ [mkUnit height Exited])) w').
Proof.
  intros s. subst s. cbn [run step]. rewrite unitStep_last_fetching.
  destruct (FetchAndStoreBlockDetails env height w) as [[[bd err]|msg] w1].
  - right. cbn [mbind option_bind step]. rewrite unitStep_last_finished.
    cbn [mbind option_bind step]. rewrite unitStep_last_released. by eexists.
  - left. by eexists.
Qed.

Lemma sweep_completes lo (n : nat) :
  minInt64 < lo →
  ∀ maxH cur us w,
    cur ≤ maxInt64 →
    Z.of_nat n = cur - lo + 1 →
    ∃ ls p, run env ls (Alive (mkScan lo maxH cur AtLoop 0 0 us) w) = Some p
            ∧ (isReturned p ∨ isCrashed p).
Proof.
  intros Hlo. induction n as [|n IH]; intros maxH cur us w Hcur Hn.
  - exists [LMain; LMain]. eexists. split; [|left].
    + cbn [run step mbind option_bind]. unfold mainStep at 1. simpl.
      rewrite bool_decide_eq_false_2 by lia. simpl. done.
    + done.
  - assert (dec64 cur = cur - 1) as Hdec.
    { unfold dec64. apply wrap64_id. int64_bounds. lia. }
    pose proof (start_one_unit lo maxH cur us w ltac:(lia)) as Hstart.
    rewrite Hdec in Hstart.
    destruct (run_one_unit lo maxH (cur - 1) cur us w) as [(p & Hp & Hcrash)|[w' Hunit]].
    + exists ([LMain; LMain; LMain] ++ [LUnit (length us)]), p.
      rewrite run_app, Hstart. cbn [mbind option_bind]. split; [exact Hp|by right].
    + destruct (IH maxH (cur - 1) (us ++ [mkUnit cur Exited]) w') as (ls & p & Hrun & Hend);
        [lia|lia|].
      exists ([LMain; LMain; LMain]
                ++ [LUnit (length us); LUnit (length us); LUnit (length us)] ++ ls), p.
      rewrite run_app, Hstart. cbn [mbind option_bind].
      rewrite run_app, Hunit. cbn [mbind option_bind]. done.
Qed.

Lemma take_descending hi n m :
  (n ≤ m)%nat → take n (descending hi m) = descending hi n.
Proof.
  revert hi m. induction n as [|n IH]; intros hi [|m] Hle; simpl; try done; [lia|].
  f_equal. apply IH. lia.
Qed.

(** C5 (amended).  For a window with [-2^63 < minHeight <= maxHeight]
    (both of type [int64]) one pass starts its units in descending order
    of height from the effective maximum: in every state of the pass the
    heights of the units started so far are a prefix of the list
    [hi, hi-1, ..., minHeight], which holds every height of the window
    exactly once; when the call has returned, every height of the window
    has got exactly one unit and every unit has run to its end.  A unit
    whose pipeline returns an error logs it and goes on to its deferred
    calls; the caller and the other units are not affected.  There is a
    schedule on which the call returns, unless a unit's goroutine
    panics. *)
Theorem sweep_visits_each_height_once minH maxH w s0 w0 :
  minInt64 < minH → minH ≤ maxH → maxH ≤ maxInt64 →
  startIndexing env minH maxH w = (Ret s0, w0) →
  let hi := maxBlockHeight s0 in
  maxH ≤ hi
  ∧ NoDup (descRange hi minH)
  ∧ (∀ h, h ∈ descRange hi minH ↔ minH ≤ h ≤ hi)
  ∧ (∀ ls s w', run env ls (Alive s0 w0) = Some (Alive s w') →
       u_height <$> units s = take (length (units s)) (descRange hi minH)
       ∧ (pc s = Returned →
          u_height <$> units s = descRange hi minH
          ∧ Forall (λ u, u_phase u = Exited) (units s))
       ∧ ∀ i u bd err w1,
           units s !! i = Some u → u_phase u = Fetching →
           FetchAndStoreBlockDetails env (u_height u) w' = (Ret (bd, Some err), w1) →
           ∃ s', step env (LUnit i) (Alive s w') =
                   Some (Alive s' (setLogs (λ ls, ls ++ [LogIndexError (u_height u) err]) w1))
                 ∧ pc s' = pc s ∧ currentHeight s' = currentHeight s
                 ∧ units s' !! i = Some (mkUnit (u_height u) Finished)
                 ∧ ∀ j, i ≠ j → units s' !! j = units s !! j)
  ∧ ∃ ls p, run env ls (Alive s0 w0) = Some p ∧ (isReturned p ∨ isCrashed p).
Proof.
  intros Hlo Hle Hhi Hstart.
  destruct (startIndexing_init minH maxH w s0 w0) as (hi & -> & Hraise & Hint);
    [by int64_bounds; lia|done|].
  simpl. assert (hi ≤ maxInt64) as Hhi' by (by int64_bounds; lia).
  split; [done|]. split; [apply NoDup_descending|].
  split; [intros h; apply elem_of_descRange; lia|]. split.
  - intros ls s w' Hrun.
    pose proof (SweepInv_run minH hi Hlo Hhi' _ _ _ _ _
                  (SweepInv_init minH hi ltac:(lia)) Hrun)
      as [Hmin Hmax Hheights Hcur Hfloor Hbody Hdone Hwg Hret].
    split; [|split].
    + unfold descRange. rewrite take_descending by lia. done.
    + intros Hpc. rewrite Hpc in Hdone. specialize (Hdone eq_refl).
      split; [|by apply countOpen_zero, Hret].
      rewrite Hheights. unfold descRange. f_equal. lia.
    + intros i u bd err w1 Hu Hphase Hfetch. cbn [step]. unfold unitStep.
      rewrite Hu. simpl. rewrite Hphase, Hfetch. eexists. split; [done|]. simpl.
      split; [done|]. split; [done|]. unfold setUnit. split.
      * by rewrite list_lookup_alter_eq, Hu.
      * intros j Hne. by rewrite list_lookup_alter_ne.
  - apply (sweep_completes minH (Z.to_nat (hi - minH + 1))); [done|done|lia].
Qed.

(** With [minBlockHeight] at the least [int64] the loop condition always
    holds: the pass never leaves its loop. *)
Lemma sweep_from_least_never_returns maxH w s0 w0 ls s w' :
  inInt64 maxH →
  startIndexing env minInt64 maxH w = (Ret s0, w0) →
  run env ls (Alive s0 w0) = Some (Alive s w') →
  pastLoop (pc s) = false.
Proof.
  intros HmaxH Hstart Hrun.
  destruct (startIndexing_init _ _ _ _ _ HmaxH Hstart) as (hi & -> & _ & Hhi).
  pose (P := λ s, minBlockHeight s = minInt64 ∧ inInt64 (currentHeight s)
                  ∧ pastLoop (pc s) = false).
  assert (P s) as (_ & _ & Hpc); [|done].
  eapply (run_scan_ind P); [| | |exact Hrun]; [| |done]; unfold P.
  - clear. intros s s' (Hmin & Hcur & Hpc). unfold mainStep.
    destruct (pc s); try done.
    + rewrite bool_decide_eq_true_2 by (rewrite Hmin; unfold inInt64 in Hcur; lia).
      by intros [= <-].
    + case_bool_decide; [|done]. by intros [= <-].
    + intros [= <-]. simpl. split; [done|]. split; [apply wrap64_range|done].
  - clear. intros i s w s' w' (Hmin & Hcur & Hpc). unfold unitStep.
    destruct (units s !! i) as [u|]; [|done]. simpl. destruct (u_phase u).
    + by destruct (FetchAndStoreBlockDetails env (u_height u) w)
        as [[[bd err]|msg] w1]; intros [= <- _].
    + by destruct (semaphore s); intros [= <- _].
    + by intros [= <- _].
    + done.
Qed.

End Scanner.

(** * The statements at concrete inputs *)

Import Scenario.

(** ** C8: the two height resolvers *)

(** The REST resolver turns every failure into an error: transport,
    status, decoding, each missing level, the number.  It issues one
    request, whatever the outcome. *)
Lemma GetLatestBlockHeightFromREST_cases env w :
  ∃ out,
    GetLatestBlockHeightFromREST env w = (Ret out, setReqs (λ rs, rs ++ [latestBlockURL]) w)
    ∧ match upstream env (length (reqs w)) latestBlockURL with
      | GetFailed why =>
          out = (0, Some (Wrapf "error fetching latest block from REST API" (External why)))
      | GetOK resp =>
          if bool_decide (StatusCode resp = StatusOK)
          then match Decode (RespBody resp) with
               | inr err =>
                   out = (0, Some (Wrapf "error decoding latest block from REST API" err))
               | inl result =>
                   match restHeightField result with
                   | None => ∃ msg, out = (0, Some (Errorf msg))
                   | Some heightStr =>
                       match ParseInt heightStr with
                       | (_, Some err) =>
                           out = (0, Some (Wrapf "error parsing block height" err))
                       | (height, None) => out = (height, None)
                       end
                   end
               end
          else out = (0, Some (Errorf ("REST API request failed with status code: "
                                         +:+ pretty (StatusCode resp))))
      end.
Proof.
  unfold GetLatestBlockHeightFromREST. munfold. simpl.
  destruct (upstream env _ _) as [why|resp]; [by eexists|].
  destruct (decide (StatusCode resp = StatusOK)) as [Hok|Hbad].
  - rewrite (bool_decide_eq_false_2 (StatusCode resp ≠ StatusOK)) by tauto.
    rewrite bool_decide_eq_true_2 by done.
    destruct (Decode _) as [result|err]; [|by eexists].
    unfold restHeightField.
    destruct (asMap (mapIndex result "block")) as [block|]; simpl; [|by eexists _; eauto].
    destruct (asMap (mapIndex block "header")) as [header|]; simpl; [|by eexists _; eauto].
    destruct (asString _) as [heightStr|]; simpl; [|by eexists _; eauto].
    destruct (ParseInt heightStr) as [height [err|]]; by eexists.
  - rewrite (bool_decide_eq_true_2 (StatusCode resp ≠ StatusOK)) by done.
    rewrite bool_decide_eq_false_2 by done. by eexists.
Qed.

(** C8 (the code at the failing inputs).  [GetLatestBlockHeight] does
    not look at the status code: on HTTP 500 with a well-formed body it
    returns the height and no error, where the REST resolver reports the
    status.  On a reply without ["result"] (a JSON-RPC error object) its
    unchecked type assertion panics, where the REST resolver reports the
    missing field. *)
Theorem GetLatestBlockHeight_skips_status_and_result_checks :
  (GetLatestBlockHeight statusUnavailable emptyWorld).1 = Ret (5, None)
  ∧ (GetLatestBlockHeightFromREST statusUnavailable emptyWorld).1
    = Ret (0, Some (Errorf "REST API request failed with status code: 500"))
  ∧ (GetLatestBlockHeight statusRpcError emptyWorld).1
    = Panic "interface conversion: interface {} is nil, not map[string]interface {}"
  ∧ (GetLatestBlockHeightFromREST statusRpcError emptyWorld).1
    = Ret (0, Some (Errorf "invalid REST API response: 'block' field not found")).
Proof. repeat split; vm_compute; reflexivity. Qed.

(** ** C4: two persistence goroutines out of order *)

(** Two invocations of the Fetch Pipeline for height 11 start two
    goroutines.  The first reads the clock at 1000, the second at 1001;
    the second executes its upsert first.  When the first executes, the
    updated timestamp of the row goes from 1001 back to 1000. *)
Lemma updated_timestamp_can_decrease :
  ∃ p1 p2 r1 r2,
    run (chain "12") outOfOrder (Alive idle emptyWorld) = Some p1
    ∧ fetches (worldOf p1) = [11; 11]
    ∧ step (chain "12") (LTask 0) p1 = Some p2
    ∧ blocks (worldOf p1) !! 11 = Some r1
    ∧ blocks (worldOf p2) !! 11 = Some r2
    ∧ updated_at r1 = 1001 ∧ updated_at r2 = 1000
    ∧ ¬ (updated_at r1 ≤ updated_at r2).
Proof.
  eexists _, _, _, _.
  split; [vm_compute; reflexivity|].
  split; [reflexivity|].
  split; [vm_compute; reflexivity|].
  split; [vm_compute; reflexivity|].
  split; [vm_compute; reflexivity|].
  split; [reflexivity|]. split; [reflexivity|]. simpl. lia.
Qed.

(** ** C5: a window that starts at the least [int64] *)

(** With [minBlockHeight = maxBlockHeight = -2^63] and a tip no larger,
    the window holds one height.  After its unit the decrement wraps to
    [2^63 - 1], the loop condition still holds, and a second unit is
    started for a height outside the window. *)
Lemma sweep_from_least_height_leaves_window :
  ∃ s0 w0 s w',
    minInt64 ≤ minInt64
    ∧ startIndexing (chain leastTip) minInt64 minInt64 emptyWorld = (Ret s0, w0)
    ∧ maxBlockHeight s0 = minInt64
    ∧ run (chain leastTip) twoUnits (Alive s0 w0) = Some (Alive s w')
    ∧ u_height <$> units s = [minInt64; maxInt64]
    ∧ descRange (maxBlockHeight s0) minInt64 = [minInt64]
    ∧ ¬ (maxInt64 ≤ maxBlockHeight s0).
Proof.
  eexists _, _, _, _.
  split; [done|].
  split; [vm_compute; reflexivity|].
  split; [reflexivity|].
  split; [vm_compute; reflexivity|].
  split; [reflexivity|]. split; [reflexivity|]. by vm_compute.
Qed.

(** ** The theorems applied *)


(** A block reply whose ["block"] is null is outside those failures: the
    unchecked assertion in [getBlock] panics, the pipeline returns
    nothing, and nothing is written. *)
Example fetch_panics_on_null_block :
  FetchAndStoreBlockDetails chainBlockMissing 15 emptyWorld =
    (Panic "interface conversion: interface {} is nil, not map[string]interface {}",
     mkWorld 1000 ∅ 0 [blockResultsURL 15; blockURL 15] [15] [] []).
Proof. vm_compute. reflexivity. Qed.


Lemma miss_and_fault_at_height_15 :
  (blocks emptyWorld !! 15 = None ∨ db_fault (chain "12") (stmts emptyWorld) ≠ None)
  ∧ fetches (GetBlockDetails (chain "12") 15 emptyWorld).2 = [15]
  ∧ (blocks emptyWorld !! 15 = None ∨ db_fault chainDown (stmts emptyWorld) ≠ None)
  ∧ ∃ w',
      GetBlockDetails chainDown 15 emptyWorld =
        (Ret (None, Some (Wrapf "error fetching block details from database"
                            (External "connection refused"))), w')
      ∧ fetches w' = fetches emptyWorld ∧ reqs w' = reqs emptyWorld
      ∧ tasks w' = tasks emptyWorld.
Proof.
  assert (blocks emptyWorld !! 15 = None) as Hrow by reflexivity.
  pose proof (miss_invokes_pipeline_once_and_fault_is_wrapped (chain "12") 15 emptyWorld
                (or_introl Hrow)) as Hmiss.
  pose proof (miss_invokes_pipeline_once_and_fault_is_wrapped chainDown 15 emptyWorld
                (or_introl Hrow)) as Hfault.
  change (db_fault (chain "12") (stmts emptyWorld)) with (@None string) in Hmiss.
  change (db_fault chainDown (stmts emptyWorld)) with (Some "connection refused") in Hfault.
  cbv iota beta in Hmiss, Hfault.
  destruct Hmiss as (_ & Hfetches & _).
  split; [by left|]. split; [exact Hfetches|]. split; [by left|]. exact Hfault.
Defined.

Lemma upsert_in_order :
  ∃ p1 p2 r1 r2,
    run (chain "12") inOrder (Alive idle emptyWorld) = Some p1
    ∧ step (chain "12") (LTask 0) p1 = Some p2
    ∧ blocks (worldOf p1) !! 11 = Some r1
    ∧ blocks (worldOf p2) !! 11 = Some r2
    ∧ created_at r2 = created_at r1
    ∧ updated_at r1 ≤ updated_at r2.
Proof.
  eassert (run (chain "12") inOrder (Alive idle emptyWorld) = Some _) as Hrun
    by (vm_compute; reflexivity).
  match type of Hrun with _ = Some ?p => set (p1 := p) in * end.
  eassert (step (chain "12") (LTask 0) p1 = Some _) as Hstep
    by (vm_compute; reflexivity).
  eassert (blocks (worldOf p1) !! 11 = Some _) as Hr1
    by (vm_compute; reflexivity).
  destruct (upsert_keeps_created_at_and_stamps_updated_at (chain "12") (LTask 0) _ _ 11 Hstep)
    as [_ Hrows].
  destruct (Hrows _ Hr1) as (r2 & Hr2 & Hcreated & _ & Hupdated).
  eexists p1, _, _, r2.
  split; [exact Hrun|]. split; [exact Hstep|]. split; [exact Hr1|]. split; [exact Hr2|].
  split; [exact Hcreated|]. apply Hupdated.
  intros i t detailsJSON currentTime [= <-] Ht Hphase.
  vm_compute in Ht. injection Ht as <-.
  injection Hphase as _ <-. vm_compute. discriminate.
Defined.

Lemma sweep_of_heights_10_to_12 :
  ∃ s0 w0,
    startIndexing (chain "12") 10 12 emptyWorld = (Ret s0, w0)
    ∧ descRange (maxBlockHeight s0) 10 = [12; 11; 10]
    ∧ (∀ ls s w',
         run (chain "12") ls (Alive s0 w0) = Some (Alive s w') →
         pc s = Returned →
         u_height <$> units s = [12; 11; 10]
         ∧ Forall (λ u, u_phase u = Exited) (units s))
    ∧ ∃ ls p, run (chain "12") ls (Alive s0 w0) = Some p ∧ (isReturned p ∨ isCrashed p).
Proof.
  eassert (startIndexing (chain "12") 10 12 emptyWorld = (Ret _, _)) as Hstart
    by (vm_compute; reflexivity).
  assert (minInt64 < 10) as Hlo by reflexivity.
  assert (10 ≤ 12) as Hle by (vm_compute; discriminate).
  assert (12 ≤ maxInt64) as Hhi by (vm_compute; discriminate).
  destruct (sweep_visits_each_height_once (chain "12") 10 12 emptyWorld _ _
              Hlo Hle Hhi Hstart) as (_ & _ & _ & Hruns & Hcompletes).
  eexists _, _. split; [exact Hstart|]. split; [reflexivity|]. split; [|exact Hcompletes].
  intros ls s w' Hrun Hpc. destruct (Hruns ls s w' Hrun) as (_ & Hdone & _).
  exact (Hdone Hpc).
Defined.

Lemma gate_full_at_100_units :
  ∃ s0 w0 s w',
    startIndexing (chain "200") 1 200 emptyWorld = (Ret s0, w0)
    ∧ run (chain "200") (callerOnly 301) (Alive s0 w0) = Some (Alive s w')
    ∧ pc s = AtAcquire ∧ length (units s) = 100%nat
    ∧ (activeUnits s ≤ 100)%nat ∧ activeUnits s = 100%nat
    ∧ mainStep s = None.
Proof.
  eassert (startIndexing (chain "200") 1 200 emptyWorld = (Ret _, _)) as Hstart
    by (vm_compute; reflexivity).
  match type of Hstart with _ = (Ret ?s, ?w) => set (s0 := s) in *; set (w0 := w) in * end.
  eassert (run (chain "200") (callerOnly 301) (Alive s0 w0) = Some (Alive _ _)) as Hrun
    by (vm_compute; reflexivity).
  destruct (active_units_never_exceed_cap (chain "200") 1 200 emptyWorld _ _ _ _ _
              Hstart Hrun) as (Hcap & _ & Hblocked & _).
  eexists _, _, _, _. split; [exact Hstart|]. split; [exact Hrun|].
  split; [reflexivity|]. split; [reflexivity|]. split; [exact Hcap|].
  split; [reflexivity|]. apply Hblocked; reflexivity.
Defined.

Lemma tip_12_over_ceiling_11 :
  ∃ w1 s w',
    GetLatestBlockHeightFromREST (chain "12") emptyWorld = (Ret (12, None), w1)
    ∧ startIndexing (chain "12") 10 11 emptyWorld = (Ret s, w')
    ∧ maxBlockHeight s = 12 ∧ currentHeight s = 12
    ∧ logs w' = [LogMaxRaised 12 11].
Proof.
  eassert (GetLatestBlockHeightFromREST (chain "12") emptyWorld = (Ret (12, None), _)) as Htip
    by (vm_compute; reflexivity).
  destruct (tip_merge_law (chain "12") 10 11 12 emptyWorld _ Htip)
    as [(s & w' & Hs & Hmax & Hcur & _ & _ & _ & Hraised & _) _].
  destruct Hraised as [_ Hlog]; [reflexivity|].
  eexists _, s, w'. split; [exact Htip|]. split; [exact Hs|].
  split; [exact Hmax|]. split; [exact Hcur|]. exact Hlog.
Defined.

Lemma two_transactions_at_height_10 :
  ∃ bd w',
    FetchAndStoreBlockDetails (chain "12") 10 emptyWorld = (Ret (bd, None), w')
    ∧ NumTransactions bd = 2 ∧ 0 ≤ NumTransactions bd
    ∧ tasks w' = [mkTask 10 bd Spawned].
Proof.
  eassert (FetchAndStoreBlockDetails (chain "12") 10 emptyWorld = (Ret (_, None), _)) as Hfetch
    by (vm_compute; reflexivity).
  destruct (transaction_count_is_number_of_results (chain "12") 10 emptyWorld _ _ Hfetch)
    as (rr & _ & _ & Hnonneg & Htasks & _).
  eexists _, _. split; [exact Hfetch|]. split; [reflexivity|]. split; [exact Hnonneg|].
  exact Htasks.
Defined.

Lemma miss_at_height_10 :
  ∃ bd w',
    blocks emptyWorld !! 10 = None
    ∧ db_fault (chain "12") (stmts emptyWorld) = None
    ∧ GetBlockDetails (chain "12") 10 emptyWorld = (Ret (Some bd, None), w')
    ∧ bd = mkBlockDetails 10 "ABC" 2 "P1" zeroTime zeroTime (mkNullTime zeroTime false) None
    ∧ tasks w' = [mkTask 10 bd Spawned].
Proof.
  eassert (GetBlockDetails (chain "12") 10 emptyWorld = (Ret (Some _, None), _)) as Hget
    by (vm_compute; reflexivity).
  destruct (miss_returns_record_without_timestamps (chain "12") 10 emptyWorld _ _
              eq_refl eq_refl Hget) as (Hbd & Htasks & _).
  eexists _, _. split; [reflexivity|]. split; [reflexivity|]. split; [exact Hget|].
  split; [exact Hbd|]. exact Htasks.
Defined.

(** Scenario A: an empty table, the window 10 to 12, every unit and every
    persistence goroutine run to its end: three rows, each with two
    transactions, block ABC, proposer P1 and no soft-delete time. *)
Example three_rows_after_the_pass :
  ∃ s0 w0 s w',
    startIndexing (chain "12") 10 12 emptyWorld = (Ret s0, w0)
    ∧ run (chain "12")
        (twoUnits ++ [LUnit 1; LUnit 1; LUnit 1; LMain; LMain; LMain;
                      LUnit 2; LUnit 2; LUnit 2; LMain; LMain;
                      LTask 0; LTask 0; LTask 0; LTask 0; LTask 0; LTask 0])
        (Alive s0 w0) = Some (Alive s w')
    ∧ pc s = Returned ∧ tasks w' = [] ∧ size (blocks w') = 3%nat
    ∧ blocks w' !! 10 = Some (mkRow "ABC" "P1" 2 (Some "null") 1000 1000 None)
    ∧ blocks w' !! 11 = Some (mkRow "ABC" "P1" 2 (Some "null") 1000 1000 None)
    ∧ blocks w' !! 12 = Some (mkRow "ABC" "P1" 2 (Some "null") 1000 1000 None).
Proof.
  eexists _, _, _, _.
  split; [vm_compute; reflexivity|]. split; [vm_compute; reflexivity|].
  split; [reflexivity|]. split; [reflexivity|].
  split; [vm_compute; reflexivity|]. split; [vm_compute; reflexivity|].
  split; vm_compute; reflexivity.
Qed.

(** * Further properties of the code *)

(** ** Decimal heights: printing and parsing *)

Lemma isDigit_pretty_N_char d : isDigit (pretty_N_char d) = true.
Proof. unfold pretty_N_char. by repeat case_match. Qed.

Lemma digit_value_pretty_N_char d :
  (d < 10)%N → Z.of_nat (Ascii.nat_of_ascii (pretty_N_char d)) - 48 = Z.of_N d.
Proof.
  intros Hd.
  assert (d = 0 ∨ d = 1 ∨ d = 2 ∨ d = 3 ∨ d = 4 ∨ d = 5
          ∨ d = 6 ∨ d = 7 ∨ d = 8 ∨ d = 9)%N as Hcases by lia.
  by repeat (destruct Hcases as [->|Hcases]); [..|subst d].
Qed.

(** Parsing the digits [pretty_N_go] prepends continues the number. *)
Lemma parseDigits_pretty_N_go x :
  ∃ k : nat, ∀ s acc,
    parseDigits (pretty_N_go x s) acc = parseDigits s (acc * 10 ^ Z.of_nat k + Z.of_N x).
Proof.
  induction (N.lt_wf_0 x) as [x _ IH].
  assert (x = 0 ∨ 0 < x)%N as [->|Hpos] by lia.
  - exists O. intros s acc. rewrite pretty_N_go_0. f_equal. simpl. lia.
  - destruct (IH (x `div` 10)%N) as [k Hk]; [by apply N.div_lt|].
    exists (S k). intros s acc. rewrite pretty_N_go_step, Hk by done.
    cbn [parseDigits]. rewrite isDigit_pretty_N_char.
    rewrite digit_value_pretty_N_char by (by apply N.mod_lt).
    f_equal. rewrite Nat2Z.inj_succ, Z.pow_succ_r by lia.
    rewrite (N.div_mod x 10) at 3 by done. lia.
Qed.

Lemma pretty_N_go_head x s :
  (0 < x)%N → ∃ c rest, pretty_N_go x s = String c rest ∧ isDigit c = true.
Proof.
  revert s. induction (N.lt_wf_0 x) as [x _ IH]. intros s Hpos.
  rewrite pretty_N_go_step by done.
  destruct (N.eq_0_gt_0_cases (x `div` 10)) as [->|Hdiv].
  - rewrite pretty_N_go_0. eexists _, _. split; [done|apply isDigit_pretty_N_char].
  - apply IH; [by apply N.div_lt|done].
Qed.

(** [ParseInt] reads back what [%d] prints, for every [int64]. *)
Lemma ParseInt_pretty z : inInt64 z → ParseInt (pretty z) = (z, None).
Proof.
  intros Hz. destruct z as [|p|p].
  - done.
  - change (pretty (Z.pos p)) with (pretty_N_go (N.pos p) "").
    destruct (pretty_N_go_head (N.pos p) "") as (c & rest & Heq & Hc); [lia|].
    destruct (parseDigits_pretty_N_go (N.pos p)) as [k Hk].
    specialize (Hk "" 0). rewrite Heq in Hk. unfold ParseInt. rewrite Heq.
    assert (bool_decide (c = plusSign) = false) as ->.
    { apply bool_decide_eq_false_2. by intros ->. }
    assert (bool_decide (c = minusSign) = false) as ->.
    { apply bool_decide_eq_false_2. by intros ->. }
    simpl orb. cbv iota. rewrite Hk. cbn [parseDigits].
    replace (0 * 10 ^ Z.of_nat k + Z.of_N (N.pos p)) with (Z.pos p) by lia.
    assert ((Z.pos p <? 2 ^ 63) = true) as ->; [|done].
    apply Z.ltb_lt. int64_bounds. lia.
  - change (pretty (Z.neg p)) with (String minusSign (pretty_N_go (N.pos p) "")).
    destruct (pretty_N_go_head (N.pos p) "") as (c & rest & Heq & Hc); [lia|].
    destruct (parseDigits_pretty_N_go (N.pos p)) as [k Hk].
    specialize (Hk "" 0). rewrite Heq in Hk. unfold ParseInt.
    rewrite (bool_decide_eq_true_2 (minusSign = minusSign)) by done.
    rewrite orb_true_r. rewrite Heq, Hk. cbn [parseDigits].
    replace (0 * 10 ^ Z.of_nat k + Z.of_N (N.pos p)) with (Z.pos p) by lia.
    assert ((Z.pos p <=? 2 ^ 63) = true) as ->; [|done].
    apply Z.leb_le. int64_bounds. lia.
Qed.

(** ** The height resolvers *)

Section Resolvers.

Variable env : Env.

(** [GetLatestBlockHeightFromREST] returns a height without error
    exactly when the reply has status 200, its body decodes, the field
    [block.header.height] is a string and that string parses as an
    [int64]; the height is then the parsed number. *)
Lemma GetLatestBlockHeightFromREST_ok_iff w height w' :
  GetLatestBlockHeightFromREST env w = (Ret (height, None), w') ↔
  w' = setReqs (λ rs, rs ++ [latestBlockURL]) w
  ∧ ∃ resp result heightStr,
      upstream env (length (reqs w)) latestBlockURL = GetOK resp
      ∧ StatusCode resp = StatusOK
      ∧ Decode (RespBody resp) = inl result
      ∧ restHeightField result = Some heightStr
      ∧ ParseInt heightStr = (height, None).
Proof.
  destruct (GetLatestBlockHeightFromREST_cases env w) as (out & -> & Hout).
  assert (∀ P : Prop, (out = (height, None) ↔ P) →
            (Ret out, setReqs (λ rs, rs ++ [latestBlockURL]) w) = (Ret (height, None), w')
            ↔ w' = setReqs (λ rs, rs ++ [latestBlockURL]) w ∧ P) as Hshape.
  { intros P HP. split.
    - intros [= Hout' <-]. split; [done|]. by apply HP.
    - intros [-> HPholds]. apply HP in HPholds. by rewrite HPholds. }
  apply Hshape. clear Hshape.
  destruct (upstream env _ _) as [why|resp] eqn:Hreply.
  { subst out. split; [done|]. by intros (? & ? & ? & ? & _). }
  split.
  - intros ->. case_bool_decide as Hstatus; [|done].
    destruct (Decode (RespBody resp)) as [result|err] eqn:Hdecode; [|done].
    destruct (restHeightField result) as [heightStr|] eqn:Hfield; [|by destruct Hout].
    destruct (ParseInt heightStr) as [parsed [err|]] eqn:Hparse; [done|].
    injection Hout as ->. by eexists _, _, _.
  - intros (resp0 & result0 & str0 & [= <-] & Hok & Hdec & Hfld & Hparse).
    rewrite bool_decide_eq_true_2, Hdec, Hfld, Hparse in Hout by done. done.
Qed.

(** X1.  When the node reports the height of an [int64] in decimal, with
    status 200, [GetLatestBlockHeightFromREST] returns that very
    number. *)
Theorem rest_resolver_reads_back_decimal_height w resp result height :
  inInt64 height →
  upstream env (length (reqs w)) latestBlockURL = GetOK resp →
  StatusCode resp = StatusOK →
  Decode (RespBody resp) = inl result →
  restHeightField result = Some (pretty height) →
  GetLatestBlockHeightFromREST env w =
    (Ret (height, None), setReqs (λ rs, rs ++ [latestBlockURL]) w).
Proof.
  intros Hint Hreply Hstatus Hdecode Hfield.
  apply GetLatestBlockHeightFromREST_ok_iff. split; [done|].
  exists resp, result, (pretty height). by rewrite ParseInt_pretty.
Qed.

(** X2.  [GetLatestBlockHeight] issues one request and, when it returns,
    changes nothing else; it panics exactly when the body decodes but its
    ["result"] is no object. *)
Theorem status_resolver_panics_iff_result_missing w :
  ∃ out,
    GetLatestBlockHeight env w = (out, setReqs (λ rs, rs ++ [statusURL]) w)
    ∧ ((∃ msg, out = Panic msg) ↔
       ∃ resp result,
         upstream env (length (reqs w)) statusURL = GetOK resp
         ∧ Decode (RespBody resp) = inl result
         ∧ asMap (mapIndex result "result") = None)
    ∧ ∀ height err, out = Ret (height, Some err) → height = 0.
Proof.
  unfold GetLatestBlockHeight. munfold. simpl.
  destruct (upstream env _ _) as [why|resp] eqn:Hreply.
  { eexists. split; [done|]. split; [|by intros ? ? [= <- _]].
    split; [by intros [? [=]]|by intros (? & ? & [=] & _)]. }
  destruct (Decode _) as [result|derr] eqn:Hdecode.
  2:{ eexists. split; [done|]. split; [|by intros ? ? [= <- _]].
      split; [by intros [? [=]]|].
      intros (? & ? & [= <-] & ? & _). congruence. }
  unfold mustMap, conversionPanic. munfold.
  destruct (mapIndex result "result") as [| | | | |resultMap] eqn:Hresult;
    try (eexists; split; [done|]; split; [|by intros ? ? [=]];
         split; [intros _; eexists _, _; by rewrite Hresult|intros _; by eexists]).
  assert (¬ ∃ resp0 result0,
              GetOK resp = GetOK resp0 ∧ Decode (RespBody resp0) = inl result0
              ∧ asMap (mapIndex result0 "result") = None) as Hno.
  { intros (? & ? & [= <-] & Hdec & Hnone). rewrite Hdecode in Hdec.
    injection Hdec as <-. by rewrite Hresult in Hnone. }
  destruct (asMap (mapIndex resultMap "sync_info")) as [syncInfo|].
  2:{ eexists. split; [done|]. split; [|by intros ? ? [= <- _]].
      split; [by intros [? [=]]|by intros ?%Hno]. }
  destruct (asString _) as [str|].
  2:{ eexists. split; [done|]. split; [|by intros ? ? [= <- _]].
      split; [by intros [? [=]]|by intros ?%Hno]. }
  destruct (ParseInt str) as [parsed [perr|]];
    eexists; (split; [done|]);
    (split; [split; [by intros [? [=]]|by intros ?%Hno]|]); by intros ? ? [= <- _].
Qed.

End Resolvers.

(** X3.  Neither [GetLatestBlockHeight] nor the Fetch Pipeline (with
    [getBlockResults] and [getBlock]) reads a status code: against two
    nodes whose replies differ in status codes at most, each returns the
    same outcome and leaves the same world. *)
Theorem pipeline_and_status_resolver_ignore_status_codes env1 env2 height w :
  sameContent env1 env2 →
  GetLatestBlockHeight env1 w = GetLatestBlockHeight env2 w
  ∧ getBlock env1 height w = getBlock env2 height w
  ∧ getBlockResults env1 height w = getBlockResults env2 height w
  ∧ FetchAndStoreBlockDetails env1 height w = FetchAndStoreBlockDetails env2 height w.
Proof.
  intros Hsame.
  assert (∀ n url,
            match upstream env1 n url, upstream env2 n url with
            | GetFailed why1, GetFailed why2 => why1 = why2
            | GetOK resp1, GetOK resp2 => RespBody resp1 = RespBody resp2
            | _, _ => False
            end) as Hreply.
  { intros n url. specialize (Hsame n url). unfold replyContent in Hsame.
    destruct (upstream env1 n url), (upstream env2 n url); by simplify_eq. }
  assert (∀ w, getBlock env1 height w = getBlock env2 height w) as Hblock.
  { intros w0. unfold getBlock. munfold. simpl.
    specialize (Hreply (length (reqs w0)) (blockURL height)).
    destruct (upstream env1 _ _), (upstream env2 _ _); try done; [by subst|].
    by rewrite Hreply. }
  assert (∀ w, getBlockResults env1 height w = getBlockResults env2 height w) as Hresults.
  { intros w0. rewrite !getBlockResults_unfold. simpl.
    specialize (Hreply (length (reqs w0)) (blockResultsURL height)).
    destruct (upstream env1 _ _), (upstream env2 _ _); try done; [by subst|].
    rewrite Hreply. destruct (Decode _); [|done]. destruct (asMap _); [|done].
    by rewrite Hblock. }
  split; [|split; [done|split; [done|]]].
  - unfold GetLatestBlockHeight. munfold. simpl.
    specialize (Hreply (length (reqs w)) statusURL).
    destruct (upstream env1 _ _), (upstream env2 _ _); try done; [by subst|].
    by rewrite Hreply.
  - by rewrite !FetchAndStoreBlockDetails_unfold, Hresults.
Qed.

(** ** The two calls of the pipeline *)

Section Calls.

Variable env : Env.

(** X4.  [getBlock] returns a record without error exactly when the body
    decodes and holds a string at [result.block_id.hash] and at
    [result.block.header.proposer_address].  The record carries these two
    strings and nothing else: its height is 0 whatever height was asked
    for.  One request is issued. *)
Theorem getBlock_succeeds_iff height w bd w' :
  getBlock env height w = (Ret (bd, None), w') ↔
  w' = setReqs (λ rs, rs ++ [blockURL height]) w
  ∧ ∃ resp result blockID proposer,
      upstream env (length (reqs w)) (blockURL height) = GetOK resp
      ∧ Decode (RespBody resp) = inl result
      ∧ blockIdentity result = Some (blockID, proposer)
      ∧ bd = mkBlockDetails 0 blockID 0 proposer zeroTime zeroTime
               (mkNullTime zeroTime false) None.
Proof.
  split.
  - intros Hget. pose proof (getBlock_frame _ _ _ _ _ Hget) as ->. split; [done|].
    revert Hget. unfold getBlock, blockIdentity. munfold. simpl.
    destruct (upstream env _ _) as [why|resp]; [by intros [=]|].
    destruct (Decode _) as [result|err] eqn:Hdecode; [|by intros [=]].
    destruct (asMap (mapIndex result "result")) as [resultResult|] eqn:Hresult;
      [|by intros [=]].
    unfold mustMap, conversionPanic. munfold.
    destruct (mapIndex resultResult "block_id") as [| | | | |blockIDMap] eqn:HblockID;
      try by intros [=].
    destruct (asString (mapIndex blockIDMap "hash")) as [blockID|] eqn:Hhash;
      [|by intros [=]].
    destruct (mapIndex resultResult "block") as [| | | | |block] eqn:Hblock;
      try by intros [=].
    destruct (mapIndex block "header") as [| | | | |header] eqn:Hheader;
      try by intros [=].
    destruct (asString (mapIndex header "proposer_address")) as [proposer|] eqn:Hproposer;
      [|by intros [=]].
    intros [= <-]. exists resp, result, blockID, proposer.
    split; [done|]. split; [done|]. split; [|done].
    rewrite Hresult. simpl. rewrite HblockID. simpl. rewrite Hhash. simpl.
    rewrite Hblock. simpl. rewrite Hheader. simpl. by rewrite Hproposer.
  - intros (-> & resp & result & blockID & proposer & Hreply & Hdecode & Hid & ->).
    unfold blockIdentity in Hid.
    destruct (asMap (mapIndex result "result")) as [resultResult|] eqn:Hresult; [|done].
    simpl in Hid.
    destruct (mapIndex resultResult "block_id") as [| | | | |blockIDMap] eqn:HblockID;
      try done. simpl in Hid.
    destruct (asString (mapIndex blockIDMap "hash")) as [blockID'|] eqn:Hhash; [|done].
    simpl in Hid.
    destruct (mapIndex resultResult "block") as [| | | | |block] eqn:Hblock;
      try done. simpl in Hid.
    destruct (mapIndex block "header") as [| | | | |header] eqn:Hheader;
      try done. simpl in Hid.
    destruct (asString (mapIndex header "proposer_address")) as [proposer'|] eqn:Hproposer;
      [|done].
    injection Hid as -> ->.
    unfold getBlock. munfold. simpl. rewrite Hreply, Hdecode, Hresult.
    unfold mustMap. munfold. rewrite HblockID, Hhash, Hblock, Hheader, Hproposer. done.
Qed.

(** X5.  [getBlockResults] asks /block only after /block_results has
    given a ["result"] object, and then always, before it looks at
    ["txs_results"]: it issues one request when the first reply is
    unusable and two otherwise, in this order, and changes nothing but
    the request log. *)
Theorem getBlockResults_requests height w out w' :
  getBlockResults env height w = (out, w') →
  w' = setReqs (λ rs, rs ++ match resultOf (upstream env (length (reqs w))
                                                (blockResultsURL height)) with
                             | Some _ => [blockResultsURL height; blockURL height]
                             | None => [blockResultsURL height]
                             end) w.
Proof.
  rewrite getBlockResults_unfold. simpl. unfold resultOf.
  destruct (upstream env _ _) as [why|resp]; [by intros [= _ <-]|].
  destruct (Decode _) as [result|err]; [|by intros [= _ <-]].
  destruct (asMap _) as [resultResult|]; [|by intros [= _ <-]].
  destruct (getBlock env height _) as [out2 w2] eqn:Hblock.
  apply getBlock_frame in Hblock. subst w2. intros Hout.
  assert (w' = setReqs (λ rs, rs ++ [blockURL height])
                 (setReqs (λ rs, rs ++ [blockResultsURL height]) w)) as ->.
  { destruct out2 as [[bd [err|]]|msg]; simpl in Hout; [by inversion Hout| |by inversion Hout].
    destruct (mapLookup resultResult "txs_results") as [txs|]; [|by inversion Hout].
    destruct (txsCount (Some txs)); by inversion Hout. }
  unfold setReqs. simpl. by rewrite <- app_assoc.
Qed.

End Calls.

(** ** The accessor and the handler *)

Section Serving.

Variable env : Env.

Lemma GetBlockDetails_world height w :
  stmts (GetBlockDetails env height w).2 = S (stmts w)
  ∧ clock (GetBlockDetails env height w).2 = clock w.
Proof.
  rewrite GetBlockDetails_unfold. simpl.
  destruct (db_fault env (stmts w)); [done|].
  destruct (blocks w !! height); [done|].
  destruct (FetchAndStoreBlockDetails env height _) as [out w1] eqn:Hfetch.
  apply FetchAndStoreBlockDetails_frame in Hfetch as (_ & _ & Hstmts & Hclock & _).
  by destruct out as [[bd [err|]]|msg].
Qed.

Lemma GetBlockDetails_result height w blockDetails err w' :
  GetBlockDetails env height w = (Ret (blockDetails, err), w') →
  match blockDetails, err with
  | Some bd, None => Height bd = height
  | None, Some _ => True
  | _, _ => False
  end.
Proof.
  rewrite GetBlockDetails_unfold. simpl.
  destruct (db_fault env (stmts w)); [by intros [= <- <- _]|].
  destruct (blocks w !! height); [by intros [= <- <- _]|].
  destruct (FetchAndStoreBlockDetails env height _) as [[[bd [err1|]]|msg] w1] eqn:Hfetch;
    [by intros [= <- <- _]| |done].
  intros [= <- <- _].
  by apply FetchAndStoreBlockDetails_ok in Hfetch as [(rr & n & _ & _ & ->) _].
Qed.

(** X6.  [GetBlockDetails] sends exactly one statement to the database
    and never changes the table itself; it returns a record exactly when
    it returns no error, and a returned record carries the requested
    height, from the table or from upstream alike. *)
Theorem GetBlockDetails_one_statement_and_requested_height height w out w' :
  GetBlockDetails env height w = (out, w') →
  blocks w' = blocks w ∧ stmts w' = S (stmts w) ∧ clock w' = clock w
  ∧ ∀ blockDetails err, out = Ret (blockDetails, err) →
      (err = None ↔ is_Some blockDetails)
      ∧ ∀ bd, blockDetails = Some bd → Height bd = height.
Proof.
  intros Hget.
  pose proof (GetBlockDetails_blocks env height w) as Hblocks.
  pose proof (GetBlockDetails_world height w) as [Hstmts Hclock].
  rewrite Hget in Hblocks, Hstmts, Hclock. simpl in *.
  split; [done|]. split; [done|]. split; [done|].
  intros blockDetails err ->. apply GetBlockDetails_result in Hget.
  destruct blockDetails as [bd|], err as [err|]; try done.
  split; [done|]. by intros ? [= <-].
Qed.

(** X7.  Asked twice in a row for a height the table does not hold,
    with no persistence goroutine run in between, [GetBlockDetails] is a
    miss both times: the row is still absent after the first call, the
    pipeline is entered twice and two goroutines are pending. *)
Theorem repeated_miss_fetches_twice height w bd1 w1 :
  blocks w !! height = None →
  db_fault env (stmts w) = None →
  db_fault env (S (stmts w)) = None →
  GetBlockDetails env height w = (Ret (Some bd1, None), w1) →
  blocks w1 !! height = None
  ∧ ∀ bd2 w2,
      GetBlockDetails env height w1 = (Ret (Some bd2, None), w2) →
      fetches w2 = fetches w ++ [height; height]
      ∧ tasks w2 = tasks w ++ [mkTask height bd1 Spawned; mkTask height bd2 Spawned]
      ∧ blocks w2 !! height = None.
Proof.
  assert (∀ w bd w',
            blocks w !! height = None → db_fault env (stmts w) = None →
            GetBlockDetails env height w = (Ret (Some bd, None), w') →
            blocks w' = blocks w ∧ stmts w' = S (stmts w)
            ∧ fetches w' = fetches w ++ [height]
            ∧ tasks w' = tasks w ++ [mkTask height bd Spawned]) as Hmiss.
  { clear. intros w bd w' Hrow Hdb. rewrite GetBlockDetails_unfold. simpl.
    rewrite Hdb, Hrow.
    destruct (FetchAndStoreBlockDetails env height _) as [[[bd1 [err|]]|msg] w1] eqn:Hfetch;
      try by intros [=].
    intros [= -> ->].
    pose proof (FetchAndStoreBlockDetails_frame _ _ _ _ _ Hfetch) as (? & ? & ? & _).
    by apply FetchAndStoreBlockDetails_ok in Hfetch as [_ ?]. }
  intros Hrow Hdb1 Hdb2 Hget1.
  destruct (Hmiss _ _ _ Hrow Hdb1 Hget1) as (Hblocks1 & Hstmts1 & Hfetches1 & Htasks1).
  assert (blocks w1 !! height = None) as Hrow1 by (by rewrite Hblocks1).
  split; [done|]. intros bd2 w2 Hget2.
  destruct (Hmiss _ _ _ Hrow1 ltac:(by rewrite Hstmts1) Hget2)
    as (Hblocks2 & _ & Hfetches2 & Htasks2).
  rewrite Hfetches2, Hfetches1, Htasks2, Htasks1, Hblocks2.
  by rewrite <- !app_assoc.
Qed.

(** X8.  The handler answers 400 exactly when the path parameter is no
    decimal [int64], and then touches neither the database nor the node;
    it answers 500 exactly when [GetBlockDetails] returns an error, with
    the text of the whole error chain; otherwise it answers 200 with a
    record (never null) of the parsed height. *)
Theorem handler_status_codes heightStr w status reply w' :
  getBlockDetailsHandler env heightStr w = (Ret (status, reply), w') →
  match ParseInt heightStr with
  | (_, Some _) =>
      status = StatusBadRequest ∧ reply = ErrorReply "Invalid block height" ∧ w' = w
  | (height, None) =>
      ∃ blockDetails err,
        GetBlockDetails env height w = (Ret (blockDetails, err), w')
        ∧ match err with
          | Some err =>
              status = StatusInternalServerError ∧ reply = ErrorReply (errorText err)
          | None =>
              status = StatusOK
              ∧ ∃ bd, blockDetails = Some bd ∧ reply = BlockReply (Some bd)
                      ∧ Height bd = height
          end
  end.
Proof.
  unfold getBlockDetailsHandler.
  destruct (ParseInt heightStr) as [height [perr|]]; [by intros [= <- <- <-]|].
  munfold.
  destruct (GetBlockDetails env height w) as [[[blockDetails err]|msg] w1] eqn:Hget;
    [|done].
  pose proof (GetBlockDetails_result _ _ _ _ _ Hget) as Hresult.
  destruct blockDetails as [bd|], err as [err|]; try done;
    intros [= <- <- <-]; eexists _, _; (split; [done|]); [|done].
  split; [done|]. by exists bd.
Qed.


(** X10.  When the database fails the lookup, the handler answers 500
    and the text names the storage failure and its cause; when the
    block-results request fails in transport, the text names each layer
    the error went through. *)
Theorem handler_error_texts height w :
  inInt64 height →
  (∀ why, db_fault env (stmts w) = Some why →
     (getBlockDetailsHandler env (pretty height) w).1 =
       Ret (StatusInternalServerError,
            ErrorReply ("error fetching block details from database: " +:+ why)))
  ∧ (∀ why, db_fault env (stmts w) = None → blocks w !! height = None →
       upstream env (length (reqs w)) (blockResultsURL height) = GetFailed why →
       (getBlockDetailsHandler env (pretty height) w).1 =
         Ret (StatusInternalServerError,
              ErrorReply ("error fetching and storing block details: "
                            +:+ "error getting block details: "
                            +:+ "error fetching block results: " +:+ why))).
Proof.
  intros Hint. unfold getBlockDetailsHandler. rewrite ParseInt_pretty by done. munfold.
  split.
  - intros why Hdb. rewrite GetBlockDetails_unfold. simpl. by rewrite Hdb.
  - intros why Hdb Hrow Hreply. rewrite GetBlockDetails_unfold. simpl.
    rewrite Hdb, Hrow, FetchAndStoreBlockDetails_unfold, getBlockResults_unfold.
    simpl. by rewrite Hreply.
Qed.

End Serving.

(** ** The pass: a failed tip, the wait group, progress *)

Section Pass.

Variable env : Env.

(** X11.  When the tip cannot be resolved, [StartIndexing] logs the error
    and goes on with 0 as the latest height: the pass is bounded by
    max(C, 0), so a negative ceiling is raised to 0.  [main] instead
    falls back to its ceiling. *)
Theorem failed_tip_resolution_uses_zero minH C w T err w1 :
  GetLatestBlockHeightFromREST env w = (Ret (T, Some err), w1) →
  (∃ s w',
     startIndexing env minH C w = (Ret s, w')
     ∧ maxBlockHeight s = Z.max C 0 ∧ currentHeight s = Z.max C 0
     ∧ logs w' = logs w ++ LogLatestHeightError err
                            :: (if bool_decide (0 > C) then [LogMaxRaised 0 C] else [])
     ∧ reqs w' = reqs w ++ [latestBlockURL])
  ∧ ∃ w', mainCeiling env C w = (Ret C, w')
          ∧ logs w' = logs w ++ [LogLatestHeightError err].
Proof.
  intros Htip.
  destruct (GetLatestBlockHeightFromREST_returns env w) as (T' & err' & Heq & Hzero & _).
  rewrite Heq in Htip. injection Htip as -> -> <-. rewrite Hzero in * by done.
  split.
  - rewrite startIndexing_unfold, Heq. simpl.
    case_bool_decide; eexists _, _; (split; [done|]); simpl.
    + rewrite <- app_assoc. repeat split; lia.
    + repeat split; lia.
  - unfold mainCeiling. munfold. rewrite Heq. simpl.
    rewrite bool_decide_eq_false_2 by lia. by eexists.
Qed.

Lemma WaitInv_mainStep s s' : WaitInv s → mainStep s = Some s' → WaitInv s'.
Proof.
  unfold WaitInv, mainStep. intros [Hwg Hret].
  destruct (pc s) eqn:Hpc; simpl in *.
  - case_bool_decide; intros [= <-]; simpl; split; (done || lia).
  - case_bool_decide; [|done]. by intros [= <-].
  - intros [= <-]. simpl. rewrite countOpen_app. simpl. split; [lia|done].
  - case_bool_decide; [|done]. intros [= <-]. simpl. split; [done|]. intros _. lia.
  - done.
Qed.

Lemma WaitInv_unitStep i s w s' w' :
  WaitInv s → unitStep env i s w = Some (Alive s' w') → WaitInv s'.
Proof.
  unfold WaitInv, unitStep. intros [Hwg Hret].
  destruct (units s !! i) as [u|] eqn:Hu; [|done]. simpl.
  destruct (u_phase u) eqn:Hphase.
  - destruct (FetchAndStoreBlockDetails env (u_height u) w) as [[[bd err]|msg] w1];
      [|done].
    pose proof (countOpen_alter _ _ _ Finished Hu) as Hcount.
    rewrite Hphase in Hcount. simpl in Hcount.
    intros [= <- _]. simpl. unfold setUnit. split; [lia|].
    intros Hpc. specialize (Hret Hpc). lia.
  - destruct (semaphore s); [done|].
    pose proof (countOpen_alter _ _ _ Released Hu) as Hcount.
    rewrite Hphase in Hcount. simpl in Hcount.
    intros [= <- _]. simpl. unfold setUnit. split; [lia|].
    intros Hpc. specialize (Hret Hpc). lia.
  - pose proof (countOpen_alter _ _ _ Exited Hu) as Hcount.
    rewrite Hphase in Hcount. simpl in Hcount.
    intros [= <- _]. simpl. unfold setUnit. split; [lia|].
    intros Hpc. specialize (Hret Hpc). lia.
  - done.
Qed.

Lemma pass_invariants minH maxH w s0 w0 ls s w' :
  startIndexing env minH maxH w = (Ret s0, w0) →
  run env ls (Alive s0 w0) = Some (Alive s w') →
  GateInv s ∧ WaitInv s.
Proof.
  intros Hstart Hrun.
  rewrite startIndexing_unfold in Hstart.
  destruct (GetLatestBlockHeightFromREST_returns env w) as (T & err & Heq & _).
  rewrite Heq in Hstart. simpl in Hstart.
  eapply (run_scan_ind env (λ s, GateInv s ∧ WaitInv s)); [| | |exact Hrun].
  - intros ? ? [? ?] ?. eauto using GateInv_mainStep, WaitInv_mainStep.
  - intros ? ? ? ? ? [? ?] ?. eauto using GateInv_unitStep, WaitInv_unitStep.
  - case_bool_decide; injection Hstart as <- _;
      (split; [apply GateInv_init|by split]).
Qed.

Lemma countActive_pos us :
  (0 < countActive us)%nat → ∃ i u, us !! i = Some u ∧ holdsSlot u = true.
Proof.
  induction us as [|u us IH]; simpl; [lia|].
  destruct (holdsSlot u) eqn:Hu; [intros _; by exists O, u|].
  intros Hpos. destruct IH as (i & v & Hi & Hv); [lia|]. by exists (S i), v.
Qed.

Lemma countOpen_pos us :
  (0 < countOpen us)%nat → ∃ i u, us !! i = Some u ∧ u_phase u ≠ Exited.
Proof.
  induction us as [|u us IH]; simpl; [lia|].
  case_bool_decide as Hu; [|intros _; by exists O, u].
  intros Hpos. destruct IH as (i & v & Hi & Hv); [lia|]. by exists (S i), v.
Qed.

Lemma countActive_lookup us i u :
  us !! i = Some u → holdsSlot u = true → (0 < countActive us)%nat.
Proof.
  revert i. induction us as [|v us IH]; intros [|i]; simpl; try done.
  - intros [= ->] ->. lia.
  - intros Hi Hu. specialize (IH _ Hi Hu). lia.
Qed.

Lemma countActive_exited us :
  Forall (λ u, u_phase u = Exited) us → countActive us = O.
Proof.
  induction 1 as [|u us Hu _ IH]; simpl; [done|].
  unfold holdsSlot. by rewrite Hu, IH.
Qed.

(** X12.  For every window, also one that is empty or reaches the least
    [int64]: the wait group counter is never negative, and once the call
    has returned every unit that was started has run its deferred calls,
    the channel is empty and the counter is zero. *)
Theorem pass_returns_with_gate_and_wait_group_clear minH maxH w s0 w0 ls s w' :
  startIndexing env minH maxH w = (Ret s0, w0) →
  run env ls (Alive s0 w0) = Some (Alive s w') →
  0 ≤ wg s
  ∧ (pc s = Returned →
     Forall (λ u, u_phase u = Exited) (units s) ∧ semaphore s = O ∧ wg s = 0).
Proof.
  intros Hstart Hrun.
  destruct (pass_invariants _ _ _ _ _ _ _ _ Hstart Hrun) as [[Hsem _] [Hwg Hret]].
  split; [destruct (inLoopBody (pc s)); lia|].
  intros Hpc. specialize (Hret Hpc). apply countOpen_zero in Hret as Hall.
  split; [done|]. rewrite Hsem, Hwg, Hpc, Hret, (countActive_exited _ Hall). done.
Qed.

(** X13.  A pass cannot deadlock: in every state in which the call has
    not returned, the caller or one of the units has a step.  When the
    caller waits at the full channel a unit holds a slot and can move;
    when it waits in [wg.Wait()] a unit has not finished and can move. *)
Theorem pass_never_deadlocks minH maxH w s0 w0 ls s w' :
  startIndexing env minH maxH w = (Ret s0, w0) →
  run env ls (Alive s0 w0) = Some (Alive s w') →
  pc s ≠ Returned →
  (∃ s', step env LMain (Alive s w') = Some (Alive s' w'))
  ∨ ∃ i p, step env (LUnit i) (Alive s w') = Some p.
Proof.
  intros Hstart Hrun Hpc.
  destruct (pass_invariants _ _ _ _ _ _ _ _ Hstart Hrun) as [[Hsem Hcap] [Hwg _]].
  assert (∀ i u, units s !! i = Some u → u_phase u ≠ Exited →
                 ∃ p, unitStep env i s w' = Some p) as Hmoves.
  { intros i u Hu Hphase. unfold unitStep. rewrite Hu. simpl.
    destruct (u_phase u) eqn:Hph; [| |by eexists|done].
    - destruct (FetchAndStoreBlockDetails env (u_height u) w')
        as [[[bd err]|msg] w1]; by eexists.
    - pose proof (countActive_lookup _ _ _ Hu) as Hpos.
      unfold holdsSlot in Hpos. rewrite Hph in Hpos. specialize (Hpos eq_refl).
      destruct (semaphore s); [lia|by eexists]. }
  cbn [step]. unfold mainStep. unfold semaphoreCap in *.
  destruct (pc s) eqn:Hpcs; [| | | |done].
  - left. destruct (bool_decide (currentHeight s >= minBlockHeight s)); simpl; by eexists.
  - simpl in Hsem. rewrite Nat.add_0_r in Hsem.
    case_bool_decide as Hroom; [left; simpl; by eexists|right].
    simpl in Hsem. destruct (countActive_pos (units s)) as (i & u & Hu & Hslot); [lia|].
    destruct (Hmoves i u Hu) as [p Hp]; [|by exists i, p].
    intros Hex. unfold holdsSlot in Hslot. by rewrite Hex in Hslot.
  - left. simpl. by eexists.
  - simpl in Hsem, Hwg.
    case_bool_decide as Hzero; [left; simpl; by eexists|right]. destruct (countOpen_pos (units s)) as (i & u & Hu & Hphase); [lia|].
    destruct (Hmoves i u Hu Hphase) as [p Hp]. by exists i, p.
Qed.

(** X14.  A window whose lower end lies above the effective maximum is
    swept without a single unit: no unit is ever started, and the call
    returns after the loop test and the wait. *)
Theorem empty_window_starts_no_unit minH maxH w s0 w0 :
  startIndexing env minH maxH w = (Ret s0, w0) →
  maxBlockHeight s0 < minH →
  (∀ ls s w', run env ls (Alive s0 w0) = Some (Alive s w') → units s = [])
  ∧ ∃ s', run env [LMain; LMain] (Alive s0 w0) = Some (Alive s' w0)
          ∧ pc s' = Returned ∧ units s' = [].
Proof.
  intros Hstart Hempty.
  rewrite startIndexing_unfold in Hstart.
  destruct (GetLatestBlockHeightFromREST_returns env w) as (T & err & Heq & _).
  rewrite Heq in Hstart. simpl in Hstart.
  assert (∃ hi, s0 = mkScan minH hi hi AtLoop 0 0 []) as [hi ->].
  { case_bool_decide; injection Hstart as <- _; by eexists. }
  simpl in Hempty. split.
  - intros ls s w' Hrun.
    pose (P := λ s, units s = [] ∧ currentHeight s < minBlockHeight s
                    ∧ inLoopBody (pc s) = false).
    assert (P s) as [? _]; [|done].
    eapply (run_scan_ind env P); [| | |exact Hrun]; unfold P; [| |done].
    + clear. intros s s' (Hunits & Hcur & Hpc). unfold mainStep.
      destruct (pc s); try done.
      * rewrite bool_decide_eq_false_2 by lia. by intros [= <-].
      * case_bool_decide; [|done]. by intros [= <-].
    + clear. intros i s w s' w' (Hunits & _). unfold unitStep. by rewrite Hunits.
  - eexists. cbn [run step mbind option_bind]. unfold mainStep at 1. simpl.
    rewrite bool_decide_eq_false_2 by lia. simpl. done.
Qed.

End Pass.

(** ** What the steps of the process do to the world *)

Section Worlds.

Variable env : Env.

(** The four ways a slice of a persistence goroutine can go. *)
Lemma taskStep_cases i w w' :
  taskStep env i w = Some w' →
  ∃ t, tasks w !! i = Some t
    ∧ fetches w' = fetches w ∧ clock w' = clock w ∧ reqs w' = reqs w
    ∧ match t_phase t with
      | Spawned =>
          blocks w' = blocks w ∧ stmts w' = stmts w
          ∧ match marshalDetails env (Details (t_block t)) with
            | inr err =>
                tasks w' = delete i (tasks w)
                ∧ logs w' = logs w ++ [LogMarshalError err]
            | inl detailsJSON =>
                tasks w' = <[i := mkTask (t_height t) (t_block t)
                                     (Stamped detailsJSON (clock w))]> (tasks w)
                ∧ logs w' = logs w
            end
      | Stamped detailsJSON currentTime =>
          tasks w' = delete i (tasks w) ∧ stmts w' = S (stmts w)
          ∧ match db_fault env (stmts w) with
            | Some why =>
                blocks w' = blocks w
                ∧ logs w' = logs w ++ [LogStoreError (External why)]
            | None =>
                logs w' = logs w
                ∧ blocks w' = upsert (t_height t) (BlockID (t_block t))
                                (Proposer (t_block t)) (NumTransactions (t_block t))
                                detailsJSON currentTime currentTime (blocks w)
            end
      end.
Proof.
  unfold taskStep. destruct (tasks w !! i) as [t|] eqn:Ht; [|done]. simpl.
  unfold runTask. intros Hstep. exists t. split; [done|].
  destruct (t_phase t) as [|detailsJSON currentTime].
  - destruct (marshalDetails env _); by injection Hstep as <-.
  - destruct (db_fault env (stmts w)); by injection Hstep as <-.
Qed.

(** The pipeline, whatever its outcome: it notes the fetch, and it
    starts at most one goroutine, for a record without details under the
    requested height. *)
Lemma FetchAndStoreBlockDetails_effects height w out w' :
  FetchAndStoreBlockDetails env height w = (out, w') →
  fetches w' = fetches w ++ [height] ∧ blocks w' = blocks w
  ∧ clock w' = clock w ∧ logs w' = logs w
  ∧ (tasks w' = tasks w
     ∨ ∃ bd, Details bd = None ∧ Height bd = height
             ∧ tasks w' = tasks w ++ [mkTask height bd Spawned]).
Proof.
  intros Hfetch.
  pose proof (FetchAndStoreBlockDetails_frame _ _ _ _ _ Hfetch)
    as (? & ? & _ & ? & ?).
  repeat (split; [done|]).
  destruct out as [[bd [err|]]|msg].
  - left. revert Hfetch. rewrite FetchAndStoreBlockDetails_unfold.
    destruct (getBlockResults env height _) as [out1 w1] eqn:Hres.
    destruct (getBlockResults_frame _ _ _ _ _ Hres) as [urls ->].
    by destruct out1 as [[bd1 [err1|]]|msg]; intros ?; simplify_eq.
  - right. apply FetchAndStoreBlockDetails_ok in Hfetch as [(rr & n & _ & _ & Hbd) ?].
    exists bd. split; [by rewrite Hbd|]. split; [by rewrite Hbd|done].
  - left. by apply fetch_panics_only_in_getBlock in Hfetch as (_ & _ & _ & ?).
Qed.

Lemma GetBlockDetails_effects height w :
  let w' := (GetBlockDetails env height w).2 in
  blocks w' = blocks w ∧ clock w' = clock w ∧ logs w' = logs w
  ∧ (fetches w' = fetches w ∨ fetches w' = fetches w ++ [height])
  ∧ (tasks w' = tasks w
     ∨ ∃ bd, Details bd = None ∧ Height bd = height
             ∧ fetches w' = fetches w ++ [height]
             ∧ tasks w' = tasks w ++ [mkTask height bd Spawned]).
Proof.
  simpl. rewrite GetBlockDetails_unfold. simpl.
  destruct (db_fault env (stmts w)); [by auto 10|].
  destruct (blocks w !! height); [by auto 10|].
  destruct (FetchAndStoreBlockDetails env height _) as [out w1] eqn:Hfetch.
  apply FetchAndStoreBlockDetails_effects in Hfetch
    as (Hfetches & ? & ? & ? & Htasks).
  assert ((let (o, w2) := (out, w1) in
           match o with
           | Ret (blockDetails, Some err) =>
               (Ret (None, Some (Wrapf "error fetching and storing block details" err)), w2)
           | Ret (blockDetails, None) => (Ret (Some blockDetails, None), w2)
           | Panic msg => (Panic (A:=option BlockDetails * option Error) msg, w2)
           end).2 = w1) as ->.
  { by destruct out as [[bd [err|]]|msg]. }
  repeat (split; [done|]). split; [by right|].
  destruct Htasks as [?|(bd & ? & ? & ?)]; [by left|right]. by exists bd.
Qed.

(** What a step leaves of the pending goroutines: each one afterwards
    was pending before, or is one that has just read the clock, or has
    just been started by the pipeline for a height noted as fetched. *)
Lemma step_tasks l p p' t' :
  step env l p = Some p' →
  t' ∈ tasks (worldOf p') →
  t' ∈ tasks (worldOf p)
  ∨ (∃ i t detailsJSON,
       l = LTask i ∧ tasks (worldOf p) !! i = Some t ∧ t_phase t = Spawned
       ∧ t' = mkTask (t_height t) (t_block t) (Stamped detailsJSON (clock (worldOf p))))
  ∨ (∃ bd, t' = mkTask (Height bd) bd Spawned ∧ Details bd = None
           ∧ Height bd ∈ fetches (worldOf p')).
Proof.
  destruct p as [s w|msg w]; [|done]. destruct l as [d|i| |i|height]; simpl.
  - intros [= <-]. by left.
  - destruct (taskStep env i w) as [w1|] eqn:Hstep; [|done]. intros [= <-]. simpl.
    apply taskStep_cases in Hstep as (t & Ht & _ & _ & _ & Hcases).
    destruct (t_phase t) as [|detailsJSON currentTime] eqn:Hphase.
    + destruct Hcases as (_ & _ & Hcases).
      destruct (marshalDetails env _) as [detailsJSON|err].
      * destruct Hcases as [-> _]. intros Hin.
        apply list_elem_of_lookup in Hin as [j Hj].
        destruct (decide (i = j)) as [<-|Hne].
        -- rewrite list_lookup_insert_eq in Hj by (by eapply lookup_lt_Some).
           injection Hj as <-. right. left. by exists i, t, detailsJSON.
        -- rewrite list_lookup_insert_ne in Hj by done.
           left. by eapply list_elem_of_lookup_2.
      * destruct Hcases as [-> _]. intros Hin. left.
        by eapply list_elem_of_delete_inv.
    + destruct Hcases as (-> & _). intros Hin. left. by eapply list_elem_of_delete_inv.
  - destruct (mainStep s); intros [= <-]. by left.
  - unfold unitStep. destruct (units s !! i) as [u|]; [|done]. simpl.
    destruct (u_phase u).
    + destruct (FetchAndStoreBlockDetails env (u_height u) w) as [out w1] eqn:Hfetch.
      apply FetchAndStoreBlockDetails_effects in Hfetch
        as (Hfetches & _ & _ & _ & Htasks).
      assert (∀ w2, tasks w2 = tasks w1 → fetches w2 = fetches w1 →
                    t' ∈ tasks w2 →
                    t' ∈ tasks w
                    ∨ (∃ i0 t detailsJSON, LUnit i = LTask i0 ∧ tasks w !! i0 = Some t
                         ∧ t_phase t = Spawned
                         ∧ t' = mkTask (t_height t) (t_block t)
                                  (Stamped detailsJSON (clock w)))
                    ∨ (∃ bd, t' = mkTask (Height bd) bd Spawned ∧ Details bd = None
                             ∧ Height bd ∈ fetches w2)) as Hgo.
      { intros w2 -> ->. destruct Htasks as [-> | (bd & Hd & Hh & ->)]; [by left|].
        rewrite elem_of_app, list_elem_of_singleton. intros [? | ->]; [by left|].
        right. right. exists bd. rewrite Hh, Hfetches. split; [done|]. split; [done|].
        set_solver. }
      destruct out as [[bd [err|]]|msg]; intros [= <-]; simpl; by apply Hgo.
    + destruct (semaphore s); intros [= <-]. by left.
    + intros [= <-]. by left.
    + done.
  - intros [= <-]. simpl.
    destruct (GetBlockDetails_effects height w) as (_ & _ & _ & _ & Htasks).
    destruct Htasks as [-> | (bd & Hd & Hh & Hfetches & ->)]; [by left|].
    rewrite elem_of_app, list_elem_of_singleton. intros [? | ->]; [by left|].
    right. right. exists bd. rewrite Hh, Hfetches. split; [done|]. split; [done|].
    set_solver.
Qed.

(** Fetch notes are never taken back, and the clock never runs
    backwards. *)
Lemma step_fetches_clock l p p' :
  step env l p = Some p' →
  (∃ more, fetches (worldOf p') = fetches (worldOf p) ++ more)
  ∧ clock (worldOf p) ≤ clock (worldOf p').
Proof.
  destruct p as [s w|msg w]; [|done]. destruct l as [d|i| |i|height]; simpl.
  - intros [= <-]. simpl. split; [exists []; by rewrite app_nil_r|lia].
  - destruct (taskStep env i w) as [w1|] eqn:Hstep; [|done]. intros [= <-]. simpl.
    apply taskStep_cases in Hstep as (t & _ & -> & -> & _).
    split; [exists []; by rewrite app_nil_r|lia].
  - destruct (mainStep s); intros [= <-]. simpl.
    split; [exists []; by rewrite app_nil_r|lia].
  - unfold unitStep. destruct (units s !! i) as [u|]; [|done]. simpl.
    destruct (u_phase u).
    + destruct (FetchAndStoreBlockDetails env (u_height u) w) as [out w1] eqn:Hfetch.
      apply FetchAndStoreBlockDetails_effects in Hfetch as (Hfetches & _ & Hclock & _).
      destruct out as [[bd [err|]]|msg]; intros [= <-]; simpl;
        rewrite Hfetches, Hclock; (split; [by eexists|lia]).
    + destruct (semaphore s); intros [= <-]. simpl.
      split; [exists []; by rewrite app_nil_r|lia].
    + intros [= <-]. simpl. split; [exists []; by rewrite app_nil_r|lia].
    + done.
  - intros [= <-]. simpl.
    destruct (GetBlockDetails_effects height w) as (_ & -> & _ & [-> | ->] & _);
      (split; [|lia]); [exists []; by rewrite app_nil_r|by eexists].
Qed.

End Worlds.

(** ** Invariants of the running process *)

Section Invariants.

Variable env : Env.

Lemma step_marshal_errors l p p' e :
  step env l p = Some p' →
  LogMarshalError e ∈ logs (worldOf p') →
  LogMarshalError e ∈ logs (worldOf p)
  ∨ ∃ i t, l = LTask i ∧ tasks (worldOf p) !! i = Some t
           ∧ marshalDetails env (Details (t_block t)) = inr e.
Proof.
  destruct p as [s w|msg w]; [|done]. destruct l as [d|i| |i|height]; simpl.
  - intros [= <-]. by left.
  - destruct (taskStep env i w) as [w1|] eqn:Hstep; [|done]. intros [= <-]. simpl.
    apply taskStep_cases in Hstep as (t & Ht & _ & _ & _ & Hcases).
    destruct (t_phase t) as [|detailsJSON currentTime].
    + destruct Hcases as (_ & _ & Hcases).
      destruct (marshalDetails env _) as [detailsJSON|err] eqn:Hmarshal.
      * destruct Hcases as [_ ->]. by left.
      * destruct Hcases as [_ ->]. rewrite elem_of_app, list_elem_of_singleton.
        intros [? | [= ->]]; [by left|right]. by exists i, t.
    + destruct Hcases as (_ & _ & Hcases).
      destruct (db_fault env (stmts w)); destruct Hcases as [? ?]; simplify_eq.
      * replace (logs w1) with (logs w ++ [LogStoreError (External s0)]) by done.
        rewrite elem_of_app, list_elem_of_singleton. intros [? | [=]]. by left.
      * replace (logs w1) with (logs w) by done. by left.
  - destruct (mainStep s); intros [= <-]. by left.
  - unfold unitStep. destruct (units s !! i) as [u|]; [|done]. simpl.
    destruct (u_phase u).
    + destruct (FetchAndStoreBlockDetails env (u_height u) w) as [out w1] eqn:Hfetch.
      apply FetchAndStoreBlockDetails_effects in Hfetch as (_ & _ & _ & Hlogs & _).
      destruct out as [[bd [err|]]|msg]; intros [= <-]; simpl; rewrite ?Hlogs;
        [|by left..].
      rewrite elem_of_app, list_elem_of_singleton. intros [? | [=]]. by left.
    + destruct (semaphore s); intros [= <-]. by left.
    + intros [= <-]. by left.
    + done.
  - intros [= <-]. simpl.
    destruct (GetBlockDetails_effects env height w) as (_ & _ & -> & _). by left.
Qed.

Lemma PlainTasks_step l p p' :
  PlainTasks (worldOf p) → step env l p = Some p' → PlainTasks (worldOf p').
Proof.
  unfold PlainTasks. rewrite !Forall_forall. intros Hplain Hstep t' Hin.
  destruct (step_tasks env _ _ _ _ Hstep Hin)
    as [?|[(i & t & detailsJSON & _ & Ht & _ & ->)|(bd & -> & ? & _)]]; [by auto| |done].
  simpl. apply Hplain. by eapply list_elem_of_lookup_2.
Qed.

(** X15.  The persistence goroutines the pipeline starts carry no
    details, so their [json.Marshal] cannot fail: along every run from a
    world whose pending goroutines are of that kind, all later ones are
    too, and no marshalling error is ever logged. *)
Theorem marshal_error_is_never_logged ls p p' :
  PlainTasks (worldOf p) →
  run env ls p = Some p' →
  PlainTasks (worldOf p')
  ∧ ∀ e, LogMarshalError e ∈ logs (worldOf p') → LogMarshalError e ∈ logs (worldOf p).
Proof.
  revert p. induction ls as [|l ls IH]; intros p Hplain; cbn [run].
  - by intros [= <-].
  - destruct (step env l p) as [p1|] eqn:Hstep; [|done]. cbn [mbind option_bind].
    intros Hrun.
    destruct (IH p1 (PlainTasks_step _ _ _ Hplain Hstep) Hrun) as [Hplain' Hlogs].
    split; [done|]. intros e He. apply Hlogs in He.
    destruct (step_marshal_errors _ _ _ _ Hstep He) as [?|(i & t & _ & Ht & Hmarshal)];
      [done|].
    unfold PlainTasks in Hplain. rewrite Forall_forall in Hplain.
    destruct (Hplain t) as [Hnil _]; [by eapply list_elem_of_lookup_2|].
    by rewrite Hnil in Hmarshal.
Qed.

Lemma run_fetches ls p p' :
  run env ls p = Some p' →
  ∃ more, fetches (worldOf p') = fetches (worldOf p) ++ more.
Proof.
  revert p. induction ls as [|l ls IH]; intros p; cbn [run].
  - intros [= <-]. exists []. by rewrite app_nil_r.
  - destruct (step env l p) as [p1|] eqn:Hstep; [|done]. cbn [mbind option_bind].
    intros [more2 ->]%IH.
    destruct (step_fetches_clock env _ _ _ Hstep) as [[more1 ->] _].
    exists (more1 ++ more2). by rewrite app_assoc.
Qed.

(** X16.  Rows are written only for heights the pipeline fetched: along
    every run, a height that has a row or a pending goroutine at the end
    had one at the start or has been noted as fetched. *)
Theorem rows_only_for_fetched_heights ls p p' height :
  run env ls p = Some p' →
  is_Some (blocks (worldOf p') !! height)
  ∨ height ∈ t_height <$> tasks (worldOf p') →
  is_Some (blocks (worldOf p) !! height)
  ∨ height ∈ t_height <$> tasks (worldOf p)
  ∨ height ∈ fetches (worldOf p').
Proof.
  revert p. induction ls as [|l ls IH]; intros p; cbn [run].
  - intros [= <-]. tauto.
  - destruct (step env l p) as [p1|] eqn:Hstep; [|done]. cbn [mbind option_bind].
    intros Hrun Hend.
    destruct (run_fetches _ _ _ Hrun) as [more Hmore].
    destruct (IH p1 Hrun Hend) as [Hrow|[Htask|?]]; [| |by auto].
    + destruct (step_blocks env _ _ _ Hstep)
        as [Heq|(i & t & detailsJSON & currentTime & _ & Ht & _ & Heq)];
        rewrite Heq in Hrow; [by left|].
      destruct (decide (t_height t = height)) as [<-|Hne].
      * right. left. apply list_elem_of_fmap. exists t. split; [done|].
        by eapply list_elem_of_lookup_2.
      * rewrite upsert_lookup_ne in Hrow by done. by left.
    + apply list_elem_of_fmap in Htask as (t' & -> & Hin).
      destruct (step_tasks env _ _ _ _ Hstep Hin)
        as [?|[(i & t & detailsJSON & _ & Ht & _ & ->)|(bd & -> & _ & Hfetched)]].
      * right. left. apply list_elem_of_fmap. by exists t'.
      * right. left. apply list_elem_of_fmap. exists t. split; [done|].
        by eapply list_elem_of_lookup_2.
      * right. right. rewrite Hmore. apply elem_of_app. by left.
Qed.

Lemma NotInFuture_step l p p' :
  NotInFuture (worldOf p) → step env l p = Some p' → NotInFuture (worldOf p').
Proof.
  intros [Hrows Htasks] Hstep. rewrite Forall_forall in Htasks.
  destruct (step_fetches_clock env _ _ _ Hstep) as [_ Hclock].
  split.
  - intros height r.
    destruct (step_blocks env _ _ _ Hstep)
      as [->|(i & t & detailsJSON & currentTime & _ & Ht & Hphase & ->)].
    { intros Hr. destruct (Hrows _ _ Hr). lia. }
    apply list_elem_of_lookup_2 in Ht as Hin. specialize (Htasks _ Hin).
    rewrite Hphase in Htasks.
    destruct (decide (t_height t = height)) as [<-|Hne].
    + rewrite upsert_lookup. intros [= <-]. simpl.
      destruct (blocks (worldOf p) !! t_height t) as [old|] eqn:Hold; simpl; [|lia].
      destruct (Hrows _ _ Hold). lia.
    + rewrite upsert_lookup_ne by done. intros Hr. destruct (Hrows _ _ Hr). lia.
  - rewrite Forall_forall. intros t' Hin.
    destruct (step_tasks env _ _ _ _ Hstep Hin)
      as [Hold|[(i & t & detailsJSON & _ & _ & _ & ->)|(bd & -> & _)]]; simpl; [|lia|done].
    specialize (Htasks _ Hold). destruct (t_phase t'); [done|lia].
Qed.

(** X17.  No stored timestamp lies in the future: if no row and no
    pending goroutine carries an instant later than the clock, this stays
    so along every run. *)
Theorem timestamps_never_exceed_clock ls p p' :
  NotInFuture (worldOf p) →
  run env ls p = Some p' →
  NotInFuture (worldOf p').
Proof.
  revert p. induction ls as [|l ls IH]; intros p Hinv; cbn [run].
  - by intros [= <-].
  - destruct (step env l p) as [p1|] eqn:Hstep; [|done]. cbn [mbind option_bind].
    apply IH. by eapply NotInFuture_step.
Qed.

End Invariants.

(** X18.  Repeating an upsert with the same values changes nothing, and
    upserts for different heights can be executed in either order. *)
Theorem upsert_idempotent_and_commutes
    height1 height2 id1 id2 p1 p2 n1 n2 d1 d2 c1 c2 u1 u2 (tbl : gmap Z Row) :
  upsert height1 id1 p1 n1 d1 c1 u1 (upsert height1 id1 p1 n1 d1 c1 u1 tbl)
  = upsert height1 id1 p1 n1 d1 c1 u1 tbl
  ∧ (height1 ≠ height2 →
     upsert height1 id1 p1 n1 d1 c1 u1 (upsert height2 id2 p2 n2 d2 c2 u2 tbl)
     = upsert height2 id2 p2 n2 d2 c2 u2 (upsert height1 id1 p1 n1 d1 c1 u1 tbl)).
Proof.
  split.
  - apply map_eq. intros h. destruct (decide (height1 = h)) as [<-|Hne].
    + rewrite !upsert_lookup. by destruct (tbl !! height1).
    + by rewrite !upsert_lookup_ne.
  - intros Hne. apply map_eq. intros h.
    destruct (decide (height1 = h)) as [<-|Hne1].
    + rewrite upsert_lookup. rewrite !(upsert_lookup_ne height2 height1) by done.
      by rewrite upsert_lookup.
    + rewrite (upsert_lookup_ne height1) by done.
      destruct (decide (height2 = h)) as [<-|Hne2].
      * rewrite !upsert_lookup. by rewrite (upsert_lookup_ne height1 height2).
      * by rewrite !upsert_lookup_ne.
Qed.

(** ** The pass and the pipeline *)

Lemma fetchedHeights_app us vs :
  fetchedHeights (us ++ vs) = fetchedHeights us ++ fetchedHeights vs.
Proof.
  induction us as [|u us IH]; simpl; [done|]. rewrite IH. by destruct (u_phase u).
Qed.

Lemma fetchedHeights_alter us i u ph :
  us !! i = Some u → ph ≠ Fetching →
  fetchedHeights (alter (λ u, mkUnit (u_height u) ph) i us)
  ≡ₚ (if bool_decide (u_phase u = Fetching) then [u_height u] else [])
     ++ fetchedHeights us.
Proof.
  intros Hu Hph. revert i Hu. induction us as [|v us IH]; intros [|i]; try done.
  - intros [= ->]. cbn. destruct ph, (u_phase u); done.
  - intros Hi. specialize (IH _ Hi). cbn in *.
    destruct (u_phase v); [done|..]; rewrite IH; by rewrite Permutation_middle.
Qed.

Lemma fetchedHeights_exited us :
  Forall (λ u, u_phase u = Exited) us → fetchedHeights us = u_height <$> us.
Proof.
  induction 1 as [|u us Hu _ IH]; simpl; [done|]. by rewrite Hu, IH.
Qed.

Section Coverage.

Variable env : Env.

Lemma fetched_step l s w s' w' fetched :
  isRequest l = false →
  step env l (Alive s w) = Some (Alive s' w') →
  fetches w ≡ₚ fetched ++ fetchedHeights (units s) →
  fetches w' ≡ₚ fetched ++ fetchedHeights (units s').
Proof.
  intros Hl. destruct l as [d|i| |i|height]; [| | | |done]; simpl.
  - by intros [= <- <-].
  - destruct (taskStep env i w) as [w1|] eqn:Hstep; [|done]. intros [= <- <-].
    by apply taskStep_cases in Hstep as (t & _ & -> & _).
  - unfold mainStep. destruct (pc s); repeat case_bool_decide; try done;
      intros [= <- <-]; simpl; try done.
    rewrite fetchedHeights_app. simpl. by rewrite app_nil_r.
  - unfold unitStep. destruct (units s !! i) as [u|] eqn:Hu; [|done]. simpl.
    destruct (u_phase u) eqn:Hphase.
    + destruct (FetchAndStoreBlockDetails env (u_height u) w) as [out w1] eqn:Hfetch.
      apply FetchAndStoreBlockDetails_effects in Hfetch as (Hfetches & _).
      pose proof (fetchedHeights_alter _ _ _ Finished Hu ltac:(done)) as Hperm.
      rewrite Hphase in Hperm. simpl in Hperm.
      assert (∀ w2, fetches w2 = fetches w1 →
                    fetches w ≡ₚ fetched ++ fetchedHeights (units s) →
                    fetches w2 ≡ₚ fetched ++ fetchedHeights (setUnit i Finished s)) as Hgo.
      { intros w2 -> Hinv. unfold setUnit. rewrite Hfetches, Hperm, Hinv.
        rewrite <- app_assoc. f_equiv. by rewrite <- Permutation_cons_append. }
      destruct out as [[bd [err|]]|msg]; intros [= <- <-]; simpl; by apply Hgo.
    + destruct (semaphore s); [done|]. intros [= <- <-]. simpl. unfold setUnit.
      pose proof (fetchedHeights_alter _ _ _ Released Hu ltac:(done)) as Hperm.
      rewrite Hphase in Hperm. simpl in Hperm. by rewrite Hperm.
    + intros [= <- <-]. simpl. unfold setUnit.
      pose proof (fetchedHeights_alter _ _ _ Exited Hu ltac:(done)) as Hperm.
      rewrite Hphase in Hperm. simpl in Hperm. by rewrite Hperm.
    + done.
Qed.

Lemma fetched_run ls s w s' w' fetched :
  Forall (λ l, isRequest l = false) ls →
  run env ls (Alive s w) = Some (Alive s' w') →
  fetches w ≡ₚ fetched ++ fetchedHeights (units s) →
  fetches w' ≡ₚ fetched ++ fetchedHeights (units s').
Proof.
  intros Hls. revert s w. induction Hls as [|l ls Hl _ IH]; intros s w; cbn [run].
  - by intros [= <- <-].
  - destruct (step env l (Alive s w)) as [[s1 w1|msg w1]|] eqn:Hstep;
      cbn [mbind option_bind]; [| |done].
    + intros Hrun Hinv. eapply IH; [done|]. by eapply fetched_step.
    + by intros ?%run_Crashed.
Qed.

(** X19.  While the API serves no request, a pass over a window with
    [-2^63 < minHeight <= maxHeight] that has returned has called the
    Fetch Pipeline exactly once for every height of the window and for no
    other height: the heights noted as fetched during the pass are a
    permutation of the window. *)
Theorem pass_fetches_each_height_of_the_window_once minH maxH w s0 w0 ls s w' :
  minInt64 < minH → minH ≤ maxH → maxH ≤ maxInt64 →
  startIndexing env minH maxH w = (Ret s0, w0) →
  Forall (λ l, isRequest l = false) ls →
  run env ls (Alive s0 w0) = Some (Alive s w') →
  pc s = Returned →
  fetches w' ≡ₚ fetches w ++ descRange (maxBlockHeight s0) minH.
Proof.
  intros Hlo Hle Hhi Hstart Hls Hrun Hpc.
  assert (fetches w0 = fetches w) as Hfetches0.
  { rewrite startIndexing_unfold in Hstart.
    destruct (GetLatestBlockHeightFromREST_returns env w) as (T & err & Heq & _).
    rewrite Heq in Hstart. simpl in Hstart.
    by destruct err; case_bool_decide; injection Hstart as _ <-. }
  destruct (startIndexing_init env minH maxH w s0 w0) as (hi & -> & Hraise & Hint);
    [by int64_bounds; lia|done|].
  assert (hi ≤ maxInt64) as Hhi' by (by int64_bounds; lia).
  pose proof (SweepInv_run env minH hi Hlo Hhi' _ _ _ _ _
                (SweepInv_init minH hi ltac:(lia)) Hrun)
    as [_ _ Hheights Hcur _ _ Hdone _ Hret].
  rewrite Hpc in Hdone. specialize (Hdone eq_refl). specialize (Hret Hpc).
  apply countOpen_zero in Hret.
  pose proof (fetched_run _ _ _ _ _ (fetches w) Hls Hrun) as Hperm.
  simpl in Hperm. rewrite app_nil_r, Hfetches0 in Hperm. rewrite Hperm by done.
  rewrite (fetchedHeights_exited _ Hret), Hheights. simpl. unfold descRange.
  do 2 f_equiv. lia.
Qed.

End Coverage.

(** ** The further properties applied *)

Lemma rest_resolver_reads_12 :
  GetLatestBlockHeightFromREST (chain "12") emptyWorld =
    (Ret (12, None), setReqs (λ rs, rs ++ [latestBlockURL]) emptyWorld).
Proof.
  eapply (rest_resolver_reads_back_decimal_height (chain "12") emptyWorld
            (mkResponse 200 (latestBlockBody "12")) _ 12).
  - int64_bounds. lia.
  - reflexivity.
  - reflexivity.
  - reflexivity.
  - reflexivity.
Defined.

Lemma status_503_changes_nothing_for_the_pipeline :
  sameContent (chain "12") (chain503 "12")
  ∧ FetchAndStoreBlockDetails (chain "12") 10 emptyWorld
    = FetchAndStoreBlockDetails (chain503 "12") 10 emptyWorld
  ∧ GetLatestBlockHeight (chain "12") emptyWorld
    = GetLatestBlockHeight (chain503 "12") emptyWorld.
Proof.
  assert (sameContent (chain "12") (chain503 "12")) as Hsame.
  { intros n url. unfold chain, chain503. simpl. by destruct (node "12" url). }
  destruct (pipeline_and_status_resolver_ignore_status_codes
              (chain "12") (chain503 "12") 10 emptyWorld Hsame) as (Hstatus & _ & _ & Hfetch).
  split; [exact Hsame|]. split; [exact Hfetch|exact Hstatus].
Defined.

Lemma one_request_when_block_results_fails :
  ∃ out w',
    getBlockResults chainB 15 emptyWorld = (out, w')
    ∧ reqs w' = [blockResultsURL 15].
Proof.
  eassert (getBlockResults chainB 15 emptyWorld = (_, _)) as Hget
    by (vm_compute; reflexivity).
  pose proof (getBlockResults_requests chainB 15 emptyWorld _ _ Hget) as Hreqs.
  eexists _, _. split; [exact Hget|]. rewrite Hreqs. reflexivity.
Defined.

Lemma accessor_on_stored_height_15 :
  ∃ out w',
    GetBlockDetails (chain "12") 15 worldWithRow = (out, w')
    ∧ blocks w' = blocks worldWithRow ∧ stmts w' = 1%nat.
Proof.
  eassert (GetBlockDetails (chain "12") 15 worldWithRow = (_, _)) as Hget
    by (vm_compute; reflexivity).
  destruct (GetBlockDetails_one_statement_and_requested_height (chain "12") 15
              worldWithRow _ _ Hget) as (Hblocks & Hstmts & _).
  eexists _, _. split; [exact Hget|]. split; [exact Hblocks|exact Hstmts].
Defined.

Lemma two_misses_at_height_10 :
  ∃ bd1 w1 bd2 w2,
    GetBlockDetails (chain "12") 10 emptyWorld = (Ret (Some bd1, None), w1)
    ∧ GetBlockDetails (chain "12") 10 w1 = (Ret (Some bd2, None), w2)
    ∧ blocks w1 !! 10 = None
    ∧ fetches w2 = fetches emptyWorld ++ [10; 10]
    ∧ blocks w2 !! 10 = None.
Proof.
  eassert (GetBlockDetails (chain "12") 10 emptyWorld = (Ret (Some _, None), _)) as Hget1
    by (vm_compute; reflexivity).
  match type of Hget1 with _ = (_, ?w) => set (w1 := w) in * end.
  eassert (GetBlockDetails (chain "12") 10 w1 = (Ret (Some _, None), _)) as Hget2
    by (vm_compute; reflexivity).
  destruct (repeated_miss_fetches_twice (chain "12") 10 emptyWorld _ _
              eq_refl eq_refl eq_refl Hget1) as [Hrow1 Hsecond].
  destruct (Hsecond _ _ Hget2) as (Hfetches & _ & Hrow2).
  eexists _, w1, _, _. split; [exact Hget1|]. split; [exact Hget2|].
  split; [exact Hrow1|]. split; [exact Hfetches|exact Hrow2].
Defined.

Lemma handler_rejects_abc :
  ∃ status reply w',
    getBlockDetailsHandler (chain "12") "abc" emptyWorld = (Ret (status, reply), w')
    ∧ status = 400 ∧ reply = ErrorReply "Invalid block height" ∧ w' = emptyWorld.
Proof.
  eassert (getBlockDetailsHandler (chain "12") "abc" emptyWorld = (Ret (_, _), _)) as Hrun
    by (vm_compute; reflexivity).
  pose proof (handler_status_codes (chain "12") "abc" emptyWorld _ _ _ Hrun) as Hcodes.
  change (ParseInt "abc") with (0, Some errSyntax) in Hcodes.
  eexists _, _, _. split; [exact Hrun|]. exact Hcodes.
Defined.


Lemma handler_reports_refused_connection :
  (getBlockDetailsHandler chainDown "15" emptyWorld).1 =
    Ret (StatusInternalServerError,
         ErrorReply "error fetching block details from database: connection refused").
Proof.
  assert (inInt64 15) as Hint by (int64_bounds; lia).
  destruct (handler_error_texts chainDown 15 emptyWorld Hint) as [Hfault _].
  exact (Hfault "connection refused" eq_refl).
Defined.

Lemma unreachable_node_gives_bound_zero :
  ∃ err w1 s w',
    GetLatestBlockHeightFromREST unreachable emptyWorld = (Ret (0, Some err), w1)
    ∧ startIndexing unreachable (-9) (-5) emptyWorld = (Ret s, w')
    ∧ maxBlockHeight s = 0
    ∧ logs w' = [LogLatestHeightError err; LogMaxRaised 0 (-5)].
Proof.
  eassert (GetLatestBlockHeightFromREST unreachable emptyWorld = (Ret (0, Some _), _)) as Htip
    by (vm_compute; reflexivity).
  destruct (failed_tip_resolution_uses_zero unreachable (-9) (-5) emptyWorld _ _ _ Htip)
    as [(s & w' & Hs & Hmax & _ & Hlogs & _) _].
  eexists _, _, s, w'. split; [exact Htip|]. split; [exact Hs|].
  split; [exact Hmax|exact Hlogs].
Defined.

Lemma pass_10_to_12_returns_clear :
  ∃ s0 w0 s w',
    startIndexing (chain "12") 10 12 emptyWorld = (Ret s0, w0)
    ∧ run (chain "12") threeUnits (Alive s0 w0) = Some (Alive s w')
    ∧ pc s = Returned ∧ length (units s) = 3%nat
    ∧ Forall (λ u, u_phase u = Exited) (units s) ∧ semaphore s = O ∧ wg s = 0.
Proof.
  eassert (startIndexing (chain "12") 10 12 emptyWorld = (Ret _, _)) as Hstart
    by (vm_compute; reflexivity).
  match type of Hstart with _ = (Ret ?s, ?w) => set (s0 := s) in *; set (w0 := w) in * end.
  eassert (run (chain "12") threeUnits (Alive s0 w0) = Some (Alive _ _)) as Hrun
    by (vm_compute; reflexivity).
  destruct (pass_returns_with_gate_and_wait_group_clear (chain "12") 10 12 emptyWorld
              _ _ _ _ _ Hstart Hrun) as [_ Hclear].
  eexists s0, w0, _, _. split; [exact Hstart|]. split; [exact Hrun|].
  split; [reflexivity|]. split; [reflexivity|]. exact (Hclear eq_refl).
Defined.

Lemma full_gate_leaves_a_unit_step :
  ∃ s0 w0 s w',
    startIndexing (chain "200") 1 200 emptyWorld = (Ret s0, w0)
    ∧ run (chain "200") (callerOnly 301) (Alive s0 w0) = Some (Alive s w')
    ∧ step (chain "200") LMain (Alive s w') = None
    ∧ ∃ i p, step (chain "200") (LUnit i) (Alive s w') = Some p.
Proof.
  eassert (startIndexing (chain "200") 1 200 emptyWorld = (Ret _, _)) as Hstart
    by (vm_compute; reflexivity).
  match type of Hstart with _ = (Ret ?s, ?w) => set (s0 := s) in *; set (w0 := w) in * end.
  eassert (run (chain "200") (callerOnly 301) (Alive s0 w0) = Some (Alive _ _)) as Hrun
    by (vm_compute; reflexivity).
  match type of Hrun with _ = Some (Alive ?s ?w) => set (s1 := s) in *; set (w1 := w) in * end.
  assert (step (chain "200") LMain (Alive s1 w1) = None) as Hblocked
    by (vm_compute; reflexivity).
  assert (pc s1 ≠ Returned) as Hpc by (vm_compute; discriminate).
  destruct (pass_never_deadlocks (chain "200") 1 200 emptyWorld _ _ _ _ _
              Hstart Hrun Hpc) as [[s' Hmain]|Hunit].
  - rewrite Hblocked in Hmain. discriminate Hmain.
  - exists s0, w0, s1, w1. split; [exact Hstart|]. split; [exact Hrun|].
    split; [exact Hblocked|exact Hunit].
Defined.

Lemma window_20_to_5_is_empty :
  ∃ s0 w0,
    startIndexing (chain "12") 20 5 emptyWorld = (Ret s0, w0)
    ∧ maxBlockHeight s0 = 12
    ∧ (∀ ls s w', run (chain "12") ls (Alive s0 w0) = Some (Alive s w') → units s = [])
    ∧ ∃ s', run (chain "12") [LMain; LMain] (Alive s0 w0) = Some (Alive s' w0)
            ∧ pc s' = Returned ∧ units s' = [].
Proof.
  eassert (startIndexing (chain "12") 20 5 emptyWorld = (Ret _, _)) as Hstart
    by (vm_compute; reflexivity).
  match type of Hstart with _ = (Ret ?s, ?w) => set (s0 := s) in *; set (w0 := w) in * end.
  assert (maxBlockHeight s0 < 20) as Hempty by reflexivity.
  destruct (empty_window_starts_no_unit (chain "12") 20 5 emptyWorld s0 w0 Hstart Hempty)
    as [Hnone Hreturns].
  exists s0, w0. split; [exact Hstart|]. split; [reflexivity|].
  split; [exact Hnone|exact Hreturns].
Defined.

Lemma no_marshal_error_in_the_race :
  ∃ p',
    PlainTasks (worldOf (Alive idle emptyWorld))
    ∧ run (chain "12") outOfOrder (Alive idle emptyWorld) = Some p'
    ∧ PlainTasks (worldOf p')
    ∧ ∀ e, LogMarshalError e ∉ logs (worldOf p').
Proof.
  assert (PlainTasks (worldOf (Alive idle emptyWorld))) as Hplain by constructor.
  eassert (run (chain "12") outOfOrder (Alive idle emptyWorld) = Some _) as Hrun
    by (vm_compute; reflexivity).
  destruct (marshal_error_is_never_logged (chain "12") _ _ _ Hplain Hrun)
    as [Hplain' Hlogs].
  eexists. split; [exact Hplain|]. split; [exact Hrun|]. split; [exact Hplain'|].
  intros e He. apply Hlogs in He. simpl in He. by apply elem_of_nil in He.
Defined.

Lemma row_11_was_fetched :
  ∃ p',
    run (chain "12") inOrder (Alive idle emptyWorld) = Some p'
    ∧ is_Some (blocks (worldOf p') !! 11)
    ∧ 11 ∈ fetches (worldOf p').
Proof.
  eassert (run (chain "12") inOrder (Alive idle emptyWorld) = Some _) as Hrun
    by (vm_compute; reflexivity).
  match type of Hrun with _ = Some ?p => set (p1 := p) in * end.
  assert (is_Some (blocks (worldOf p1) !! 11)) as Hrow by (vm_compute; eauto).
  destruct (rows_only_for_fetched_heights (chain "12") _ _ _ 11 Hrun (or_introl Hrow))
    as [[r Hr]|[Htask|Hfetched]].
  - vm_compute in Hr. discriminate Hr.
  - simpl in Htask. by apply elem_of_nil in Htask.
  - exists p1. split; [exact Hrun|]. split; [exact Hrow|exact Hfetched].
Defined.

Lemma race_rows_are_not_in_the_future :
  ∃ p',
    NotInFuture (worldOf (Alive idle emptyWorld))
    ∧ run (chain "12") (outOfOrder ++ [LTask 0]) (Alive idle emptyWorld) = Some p'
    ∧ NotInFuture (worldOf p').
Proof.
  assert (NotInFuture (worldOf (Alive idle emptyWorld))) as Hinit.
  { split; [|constructor]. intros height r Hr. simpl in Hr.
    rewrite lookup_empty in Hr. discriminate Hr. }
  eassert (run (chain "12") (outOfOrder ++ [LTask 0]) (Alive idle emptyWorld) = Some _)
    as Hrun by (vm_compute; reflexivity).
  eexists. split; [exact Hinit|]. split; [exact Hrun|].
  exact (timestamps_never_exceed_clock (chain "12") _ _ _ Hinit Hrun).
Defined.

Lemma upserts_for_10_and_11_commute :
  10 ≠ 11
  ∧ upsert 10 "A" "P" 1 "null" 5 5 (upsert 11 "B" "Q" 2 "null" 6 6 ∅)
    = upsert 11 "B" "Q" 2 "null" 6 6 (upsert 10 "A" "P" 1 "null" 5 5 ∅).
Proof.
  assert (10 ≠ 11) as Hne by discriminate.
  destruct (upsert_idempotent_and_commutes 10 11 "A" "B" "P" "Q" 1 2 "null" "null"
              5 6 5 6 ∅) as [_ Hcomm].
  split; [exact Hne|exact (Hcomm Hne)].
Defined.

Lemma pass_10_to_12_fetches_the_window :
  ∃ s0 w0 s w',
    startIndexing (chain "12") 10 12 emptyWorld = (Ret s0, w0)
    ∧ run (chain "12") threeUnits (Alive s0 w0) = Some (Alive s w')
    ∧ fetches w' ≡ₚ fetches emptyWorld ++ descRange (maxBlockHeight s0) 10
    ∧ descRange (maxBlockHeight s0) 10 = [12; 11; 10].
Proof.
  eassert (startIndexing (chain "12") 10 12 emptyWorld = (Ret _, _)) as Hstart
    by (vm_compute; reflexivity).
  match type of Hstart with _ = (Ret ?s, ?w) => set (s0 := s) in *; set (w0 := w) in * end.
  eassert (run (chain "12") threeUnits (Alive s0 w0) = Some (Alive _ _)) as Hrun
    by (vm_compute; reflexivity).
  assert (minInt64 < 10) as Hlo by reflexivity.
  assert (10 ≤ 12) as Hle by (vm_compute; discriminate).
  assert (12 ≤ maxInt64) as Hhi by (vm_compute; discriminate).
  assert (Forall (λ l, isRequest l = false) threeUnits) as Hls
    by (repeat constructor).
  pose proof (pass_fetches_each_height_of_the_window_once (chain "12") 10 12 emptyWorld
                s0 w0 _ _ _ Hlo Hle Hhi Hstart Hls Hrun eq_refl) as Hperm.
  eexists s0, w0, _, _. split; [exact Hstart|]. split; [exact Hrun|].
  split; [exact Hperm|reflexivity].
Defined.

(** ** Heights beyond [int64] *)

Lemma ParseInt_pretty_out_of_range z :
  ¬ inInt64 z → ∃ clamped, ParseInt (pretty z) = (clamped, Some errRange).
Proof.
  intros Hz. destruct z as [|p|p].
  - destruct Hz. int64_bounds. lia.
  - change (pretty (Z.pos p)) with (pretty_N_go (N.pos p) "").
    destruct (pretty_N_go_head (N.pos p) "") as (c & rest & Heq & Hc); [lia|].
    destruct (parseDigits_pretty_N_go (N.pos p)) as [k Hk].
    specialize (Hk "" 0). rewrite Heq in Hk. unfold ParseInt. rewrite Heq.
    assert (bool_decide (c = plusSign) = false) as ->.
    { apply bool_decide_eq_false_2. by intros ->. }
    assert (bool_decide (c = minusSign) = false) as ->.
    { apply bool_decide_eq_false_2. by intros ->. }
    simpl orb. cbv iota. rewrite Hk. cbn [parseDigits].
    replace (0 * 10 ^ Z.of_nat k + Z.of_N (N.pos p)) with (Z.pos p) by lia.
    assert ((Z.pos p <? 2 ^ 63) = false) as ->; [|by eexists].
    apply Z.ltb_ge. int64_bounds. lia.
  - change (pretty (Z.neg p)) with (String minusSign (pretty_N_go (N.pos p) "")).
    destruct (pretty_N_go_head (N.pos p) "") as (c & rest & Heq & Hc); [lia|].
    destruct (parseDigits_pretty_N_go (N.pos p)) as [k Hk].
    specialize (Hk "" 0). rewrite Heq in Hk. unfold ParseInt.
    rewrite (bool_decide_eq_true_2 (minusSign = minusSign)) by done.
    rewrite orb_true_r. rewrite Heq, Hk. cbn [parseDigits].
    replace (0 * 10 ^ Z.of_nat k + Z.of_N (N.pos p)) with (Z.pos p) by lia.
    assert ((Z.pos p <=? 2 ^ 63) = false) as ->; [|by eexists].
    apply Z.leb_gt. int64_bounds. lia.
Qed.

(** X20.  A height written in decimal that does not fit an [int64] is
    answered with 400; it is neither wrapped around nor clamped, and
    neither the database nor the node is asked. *)
Theorem handler_rejects_heights_beyond_int64 env z w :
  ¬ inInt64 z →
  getBlockDetailsHandler env (pretty z) w =
    (Ret (StatusBadRequest, ErrorReply "Invalid block height"), w).
Proof.
  intros Hz. unfold getBlockDetailsHandler.
  by destruct (ParseInt_pretty_out_of_range z Hz) as [clamped ->].
Qed.

Lemma handler_rejects_2_to_the_63 :
  getBlockDetailsHandler (chain "12") "9223372036854775808" emptyWorld =
    (Ret (StatusBadRequest, ErrorReply "Invalid block height"), emptyWorld).
Proof.
  apply (handler_rejects_heights_beyond_int64 (chain "12") 9223372036854775808 emptyWorld).
  int64_bounds. lia.
Defined.
